(** * Real-time audio session of the research notebook front end

    A shallow embedding of the audio code of [src/components/LiveInterface.tsx]
    (with the duplicated PCM decoders of [src/components/AudioOverview.tsx] and
    of the studio hub file), and the properties of its transport codec, its PCM
    conversions, its playback scheduling and its session flag; then of the
    player of the audio overview, and of the handlers of the notes component
    that the first file also holds.

    Conventions of the embedding:
    - a JavaScript string is the list of its UTF-16 code units ([list N]);
    - a [Uint8Array] is a [list byte]; the views built in the source always
      cover their whole [ArrayBuffer] from offset 0;
    - a JavaScript [number] that carries a sample value is an IEEE 754
      binary64 value ([spec_float] at precision 53), a [Float32Array] cell is
      a binary32 value, an [Int16Array] cell is an integer in
      [-32768, 32767] written with the wrap-around of the typed array;
    - a JavaScript [number] that carries a time (the audio clock, the cursor
      [nextStartTimeRef], a buffer duration) is an exact rational ([Q]);
    - a thrown exception is [None]; the two definitions that leave a range
      of numbers out ([Number_toString] and [formatTime]) answer [None]
      there too, as they say. *)

From Stdlib Require Import ZArith NArith QArith Qminmax Qround Qpower Qabs Lia List Strings.Byte String Ascii Bool DecimalString.
From Stdlib Require Import Floats.SpecFloat.
From stdpp Require Import gmap list.

Set Default Proof Using "Type".

(** ** Loops and typed arrays *)

(** [for (let i = 0; i < n; i++) body], threading the mutated state. *)
Definition for_loop {S : Type} (n : nat) (body : nat → S → S) (s : S) : S :=
  foldl (λ acc i, body i acc) s (seq 0 n).

Module JS.

(** A string, as its UTF-16 code units. *)
Abbreviation jsstring := (list N) (only parsing).

Definition code_units (s : string) : jsstring :=
  map (λ a, N_of_ascii a) (list_ascii_of_string s).

(** [String.fromCharCode(c)] *)
Definition fromCharCode (c : N) : jsstring := [(c mod 65536)%N].

(** [s.charCodeAt(i)]; [None] stands for the [NaN] of an index out of range. *)
Definition charCodeAt (s : jsstring) (i : nat) : option N := s !! i.

Abbreviation Uint8Array := (list byte) (only parsing).

(** [new Uint8Array(len)] *)
Definition new_Uint8Array (len : nat) : Uint8Array := replicate len x00.

(** The conversion applied by a store into a [Uint8Array]: modulo 256, and 0
    for [NaN]. *)
Definition toUint8 (v : option N) : byte :=
  match v with
  | Some n => default x00 (Byte.of_N (n mod 256)%N)
  | None => x00
  end.

(** [bytes[i]] read as a number; an index out of range reads [undefined],
    which [String.fromCharCode] takes as 0. *)
Definition Uint8_get (bytes : Uint8Array) (i : nat) : N :=
  default 0%N (Byte.to_N <$> bytes !! i).

(** *** Numbers that carry sample values *)

Abbreviation number := spec_float (only parsing).

Definition NaN : number := S754_nan.

(** An integer as a binary64 number. *)
Definition of_int (z : Z) : number := binary_normalize 53 1024 z 0 false.

Definition mul (x y : number) : number := SFmul 53 1024 x y.
Definition div (x y : number) : number := SFdiv 53 1024 x y.

(** The value kept by a [Float32Array] cell: the number rounded to the
    nearest binary32 value (ties to even), read back as a binary64 number. *)
Definition fround (x : number) : number :=
  match x with
  | S754_finite s m e =>
      match binary_round 24 128 s m e with
      | S754_finite s' m' e' => binary_round 53 1024 s' m' e'
      | y => y
      end
  | _ => x
  end.

(** The rational that a number stands for, when it is finite. *)
Definition value (x : number) : option Q :=
  match x with
  | S754_zero _ => Some 0%Q
  | S754_finite s m e => Some (inject_Z (cond_Zopp s (Zpos m)) * Qpower 2 e)%Q
  | _ => None
  end.

(** The integer part of a finite number, rounding towards zero. *)
Definition truncate (s : bool) (m : positive) (e : Z) : Z :=
  cond_Zopp s (Z.shiftl (Zpos m) e).

(** [ToInt16] of ECMAScript, the conversion applied by a store into an
    [Int16Array]: [NaN], the infinities and the zeros give 0, a finite
    number is truncated and taken modulo 2^16 into [-2^15, 2^15). *)
Definition toInt16 (x : number) : Z :=
  match x with
  | S754_finite s m e =>
      let int16bit := (truncate s m e mod 65536)%Z in
      if (32768 <=? int16bit)%Z then (int16bit - 65536)%Z else int16bit
  | _ => 0%Z
  end.

Abbreviation Int16Array := (list Z) (only parsing).
Abbreviation Float32Array := (list spec_float) (only parsing).

(** [new Int16Array(len)] *)
Definition new_Int16Array (len : nat) : Int16Array := replicate len 0%Z.

(** The 16-bit cells of a buffer of bytes, low byte first. *)
Fixpoint int16_cells (buffer : list byte) : Int16Array :=
  match buffer with
  | lo :: hi :: rest =>
      let u := (Z.of_N (Byte.to_N lo) + 256 * Z.of_N (Byte.to_N hi))%Z in
      (if (32768 <=? u)%Z then u - 65536 else u)%Z :: int16_cells rest
  | _ => []
  end.

(** [new Int16Array(data.buffer)]: a [RangeError] when the byte length is
    odd. *)
Definition Int16Array_of_buffer (buffer : list byte) : option Int16Array :=
  if Nat.even (length buffer) then Some (int16_cells buffer) else None.

(** [new Uint8Array(int16.buffer)]: the bytes of the cells, low byte first. *)
Definition Uint8Array_of_buffer (cells : Int16Array) : Uint8Array :=
  flat_map (λ v, [toUint8 (Some (Z.to_N (v mod 256)));
                  toUint8 (Some (Z.to_N ((v / 256) mod 256)))]%Z) cells.

(** *** Numbers that carry times, and their text *)

(** [x % y] on numbers: the quotient is truncated towards zero, so that the
    remainder has the sign of [x]. *)
Definition remainder (x y : Q) : Q :=
  let q := (x / y)%Q in
  (x - y * inject_Z (Z.quot (Qnum q) (Z.pos (Qden q))))%Q.

(** [n.toString()] for a number that is an integer below 2^53 in
    magnitude: its decimal digits, after a minus sign when it is negative.
    Such an integer is a binary64 number exactly, and the platform writes
    all its digits. The numbers beyond, which the platform rounds and, from
    10^21 on, writes with an exponent, are left out: the answer is [None]. *)
Definition Number_toString (n : Z) : option jsstring :=
  if (Z.abs n <? 2 ^ 53)%Z
  then Some (code_units (NilZero.string_of_int (Z.to_int n)))
  else None.

(** [s.padStart(targetLength, c)] for a filler of one character. *)
Definition padStart (targetLength : nat) (c : N) (s : jsstring) : jsstring :=
  replicate (targetLength - length s) c ++ s.

End JS.

(** ** The platform's [btoa] and [atob]

    Both are built into the browser. They are written here from their
    definition in the HTML standard (forgiving-base64 encode and decode over
    the alphabet of RFC 4648). *)

Module Base64.
Import JS.
Local Open Scope N_scope.

Definition alphabet : jsstring :=
  code_units "ABCDEFGHIJKLMNOPQRSTUVWXYZabcdefghijklmnopqrstuvwxyz0123456789+/".

Definition pad : N := 61.

(** The character of a 6-bit value. *)
Definition b64_char (v : N) : N := default 0 (alphabet !! N.to_nat v).

(** The 6-bit value of a character of the alphabet. *)
Definition b64_value (c : N) : option N :=
  if (65 <=? c) && (c <=? 90) then Some (c - 65)
  else if (97 <=? c) && (c <=? 122) then Some (c - 71)
  else if (48 <=? c) && (c <=? 57) then Some (c + 4)
  else if c =? 43 then Some 62
  else if c =? 47 then Some 63
  else None.

(** Three bytes give four characters; a last group of one or two bytes is
    completed with zero bits and padded with [=]. *)
Fixpoint encode_groups (l : list N) : jsstring :=
  match l with
  | [] => []
  | [a] =>
      let n := a * 16 in
      [b64_char (n / 64); b64_char (n mod 64); pad; pad]
  | [a; b] =>
      let n := (a * 256 + b) * 4 in
      [b64_char (n / 4096); b64_char ((n / 64) mod 64); b64_char (n mod 64); pad]
  | a :: b :: c :: rest =>
      let n := (a * 256 + b) * 256 + c in
      b64_char (n / 262144) :: b64_char ((n / 4096) mod 64)
        :: b64_char ((n / 64) mod 64) :: b64_char (n mod 64)
        :: encode_groups rest
  end.

(** [btoa(s)]: throws when a code unit is above U+00FF. *)
Definition btoa (s : jsstring) : option jsstring :=
  if forallb (λ c, c <=? 255) s then Some (encode_groups s) else None.

Definition is_ascii_whitespace (c : N) : bool :=
  (c =? 9) || (c =? 10) || (c =? 12) || (c =? 13) || (c =? 32).

(** Removes one or two [=] at the end. *)
Definition strip_padding (s : jsstring) : jsstring :=
  match rev s with
  | c1 :: r1 =>
      if c1 =? pad then
        match r1 with
        | c2 :: r2 => if c2 =? pad then rev r2 else rev r1
        | [] => rev r1
        end
      else s
  | [] => s
  end.

(** Four 6-bit values give three bytes; a last group of three values gives
    two bytes and one of two values gives one byte, the bits left over
    being discarded. *)
Fixpoint decode_groups (v : list N) : jsstring :=
  match v with
  | a :: b :: c :: d :: rest =>
      let n := ((a * 64 + b) * 64 + c) * 64 + d in
      (n / 65536) :: ((n / 256) mod 256) :: (n mod 256) :: decode_groups rest
  | [a; b; c] =>
      let n := ((a * 64 + b) * 64 + c) / 4 in
      [n / 256; n mod 256]
  | [a; b] => [(a * 64 + b) / 16]
  | _ => []
  end.

(** [atob(s)]: throws on a character outside the alphabet and on a length
    that leaves a single character over. *)
Definition atob (s : jsstring) : option jsstring :=
  let d := List.filter (λ c, negb (is_ascii_whitespace c)) s in
  let d := if (length d mod 4 =? 0)%nat then strip_padding d else d in
  if (length d mod 4 =? 1)%nat then None
  else decode_groups <$> mapM b64_value d.

End Base64.

(** ** The audio buffers of the platform *)

Module WebAudio.
Import JS.

(** An [AudioBuffer]: one [Float32Array] per channel. *)
Record AudioBuffer : Type := {
  numberOfChannels : nat;
  frames : nat;
  sampleRate : Q;
  channelData : list Float32Array
}.

(** [buffer.duration] *)
Definition duration (b : AudioBuffer) : Q :=
  (inject_Z (Z.of_nat (frames b)) / sampleRate b)%Q.

(** [ctx.createBuffer(numberOfChannels, length, sampleRate)]: the length is
    truncated to an integer; a [NotSupportedError] when an argument is zero
    or negative. An implementation also throws outside the ranges that it
    supports, which the standard lets it choose as long as they hold 1 to 32
    channels and the rates from 8000 to 96000 Hz. These limits, and lengths
    of 2^32 and more, are left out: where this function throws the platform
    throws, and within the ranges above the platform returns the buffer
    that this function returns. *)
Definition createBuffer (numberOfChannels : nat) (length sampleRate : Q)
  : option AudioBuffer :=
  let len := Z.to_nat (Qfloor length) in
  if (numberOfChannels =? 0)%nat || (len =? 0)%nat || Qle_bool sampleRate 0
  then None
  else Some {| numberOfChannels := numberOfChannels;
               frames := len;
               sampleRate := sampleRate;
               channelData := replicate numberOfChannels (replicate len (S754_zero false)) |}.

(** [buffer.getChannelData(channel)[i] = v]: the array returned by
    [getChannelData] is the buffer's own, and a store out of range does
    nothing. *)
Definition set_sample (b : AudioBuffer) (channel i : nat) (v : number) : AudioBuffer :=
  {| numberOfChannels := numberOfChannels b;
     frames := frames b;
     sampleRate := sampleRate b;
     channelData := alter (λ data, <[i := fround v]> data) channel (channelData b) |}.

(** [for (let i = 0; i < bound; i++) body] for a bound that may be
    fractional. *)
Definition for_below {S : Type} (bound : Q) (body : nat → S → S) (s : S) : S :=
  for_loop (Z.to_nat (Qceiling bound)) body s.

End WebAudio.

(** ** [src/components/LiveInterface.tsx] *)

Module LiveInterface.
Import JS WebAudio.

(** [function encode(bytes: Uint8Array)], the [encodeToTransport] of the
    specification. *)
Definition encode (bytes : Uint8Array) : option jsstring :=
  let len := length bytes in
  let binary :=
    for_loop len (λ i binary, binary ++ fromCharCode (Uint8_get bytes i)) [] in
  Base64.btoa binary.

(** [function decode(base64: string)], the [decodeFromTransport] of the
    specification. *)
Definition decode (base64 : jsstring) : option Uint8Array :=
  binaryString ← Base64.atob base64;
  let len := length binaryString in
  let bytes := new_Uint8Array len in
  Some (for_loop len (λ i bytes, <[i := toUint8 (charCodeAt binaryString i)]> bytes) bytes).

(** [dataInt16[k] / 32768.0]; a cell out of range reads [undefined], whose
    quotient is [NaN]. *)
Definition pcm16ToFloat (cell : option Z) : number :=
  match cell with
  | Some v => div (of_int v) (of_int 32768)
  | None => NaN
  end.

(** [async function decodeAudioData(data, ctx, sampleRate, numChannels)],
    lines 24 to 41: the [pcm16ToFloatBuffer] of the specification. The
    context [ctx] is only asked for the buffer. [frameCount] may be
    fractional; with no channel it is not a number, and [createBuffer]
    throws whatever it is. *)
Definition decodeAudioData (data : Uint8Array) (sampleRate : Q) (numChannels : nat)
  : option AudioBuffer :=
  dataInt16 ← Int16Array_of_buffer data;
  let frameCount :=
    (inject_Z (Z.of_nat (length dataInt16)) / inject_Z (Z.of_nat numChannels))%Q in
  buffer ← createBuffer numChannels frameCount sampleRate;
  Some (for_loop numChannels (λ channel buffer,
          for_below frameCount (λ i buffer,
            set_sample buffer channel i
              (pcm16ToFloat (dataInt16 !! (i * numChannels + channel)%nat)))
            buffer)
          buffer).

(** [int16[i] = inputData[i] * 32768], line 71: the product is stored into
    an [Int16Array] cell. This is the [floatSampleToPcm16] of the
    specification. *)
Definition floatSampleToPcm16 (sample : number) : Z :=
  toInt16 (mul sample (of_int 32768)).

(** The packet built by [scriptProcessor.onaudioprocess], lines 67 to 72. *)
Definition capture_packet (inputData : Float32Array) : option (jsstring * string) :=
  let l := length inputData in
  let int16 :=
    for_loop l (λ i int16, <[i := floatSampleToPcm16 (default NaN (inputData !! i))]> int16)
      (new_Int16Array l) in
  data ← encode (Uint8Array_of_buffer int16);
  Some (data, "audio/pcm;rate=16000"%string).

(** *** The component's state

    [isActive] is the React state of the component; [sessionRef],
    [nextStartTimeRef] and [sourcesRef] are its refs. Source nodes and
    sessions are objects with an identity: a node is named by its rank in
    [sourceNodes], the list of the nodes created so far, and a session by a
    number. [closedSessions] records the sessions whose [close()] was called,
    [console] what [console.error] received. *)

Record SourceNode : Type := {
  buffer : AudioBuffer;
  startTime : Q;        (* the argument of [source.start] *)
  stopped : bool        (* [source.stop()] was called *)
}.

Record State : Type := {
  isActive : bool;
  sessionRef : option nat;
  nextStartTimeRef : Q;
  sourcesRef : gset nat;
  sourceNodes : list SourceNode;
  closedSessions : list nat;
  console : list string
}.

(** The state of a freshly mounted component. *)
Definition initial : State :=
  {| isActive := false; sessionRef := None; nextStartTimeRef := 0;
     sourcesRef := ∅; sourceNodes := []; closedSessions := []; console := [] |}.

Definition setIsActive (b : bool) (st : State) : State :=
  {| isActive := b; sessionRef := sessionRef st;
     nextStartTimeRef := nextStartTimeRef st; sourcesRef := sourcesRef st;
     sourceNodes := sourceNodes st; closedSessions := closedSessions st;
     console := console st |}.

Definition set_nextStartTime (t : Q) (st : State) : State :=
  {| isActive := isActive st; sessionRef := sessionRef st;
     nextStartTimeRef := t; sourcesRef := sourcesRef st;
     sourceNodes := sourceNodes st; closedSessions := closedSessions st;
     console := console st |}.

Definition set_sources (s : gset nat) (nodes : list SourceNode) (st : State) : State :=
  {| isActive := isActive st; sessionRef := sessionRef st;
     nextStartTimeRef := nextStartTimeRef st; sourcesRef := s;
     sourceNodes := nodes; closedSessions := closedSessions st;
     console := console st |}.

(** An inbound message, as far as the handler reads it. [modelTurn] is
    [message.serverContent?.modelTurn], which may be absent, and [parts] the
    [parts] of the turn, which may be absent too; a part is given as its
    [inlineData?.data], absent when the part has none. [interrupted] tells
    whether [message.serverContent?.interrupted] is truthy. A message without
    [serverContent] has no turn and no signal. *)
Record Content : Type := {
  parts : option (list (option jsstring))
}.

Record LiveServerMessage : Type := {
  modelTurn : option Content;
  interrupted : bool
}.

(** [message.serverContent?.modelTurn?.parts[0]] of line 79: the chain stops
    at a turn that is absent, and [parts[0]] throws a [TypeError] when the
    turn is there without [parts]. *)
Definition parts_missing (message : LiveServerMessage) : bool :=
  match modelTurn message with
  | Some {| parts := None |} => true
  | _ => false
  end.

(** The test of line 79, when it does not throw: the first part is there,
    with a payload that is not the empty string. *)
Definition audio_payload (message : LiveServerMessage) : option jsstring :=
  match modelTurn message with
  | Some {| parts := Some (Some (c :: rest) :: _) |} => Some (c :: rest)
  | _ => None
  end.

(** Line 81: the cursor is brought up to the audio clock. *)
Definition anchor (now : Q) (st : State) : State :=
  set_nextStartTime (Qmax (nextStartTimeRef st) now) st.

(** Lines 83 to 89: a source node is created for the buffer, started at the
    cursor and added to the active set, and the cursor moves by the
    buffer's duration. *)
Definition schedule (b : AudioBuffer) (st : State) : State :=
  let source := length (sourceNodes st) in
  let node := {| buffer := b; startTime := nextStartTimeRef st; stopped := false |} in
  set_sources ({[source]} ∪ sourcesRef st) (sourceNodes st ++ [node])
    (set_nextStartTime (nextStartTimeRef st + duration b)%Q st).

(** What the handler does with a decoded segment, lines 81 and 83 to 89: the
    [enqueue] of the specification. *)
Definition enqueue (now : Q) (b : AudioBuffer) (st : State) : State :=
  schedule b (anchor now st).

(** [source.onended]: the node leaves the active set. *)
Definition onended (source : nat) (st : State) : State :=
  set_sources (sourcesRef st ∖ {[source]}) (sourceNodes st) st.

Definition stop_node (n : SourceNode) : SourceNode :=
  {| buffer := buffer n; startTime := startTime n; stopped := true |}.

(** Lines 92 to 94: the [interrupt] of the specification. *)
Definition interrupt (st : State) : State :=
  let nodes :=
    set_fold (λ s nodes, alter stop_node s nodes) (sourceNodes st) (sourcesRef st) in
  set_nextStartTime 0 (set_sources ∅ nodes st).

(** Lines 91 to 95. *)
Definition on_interrupted (message : LiveServerMessage) (st : State) : State :=
  if interrupted message then interrupt st else st.

(** The payload as a segment: [decodeAudioData(decode(base64), ctx, 24000, 1)]. *)
Definition decode_segment (base64 : jsstring) : option AudioBuffer :=
  bytes ← decode base64;
  decodeAudioData bytes 24000 1.

(** [onmessage], lines 78 to 96, when the audio clock reads [now]. The
    handler is taken to run to its end before the next event: its only
    [await] is on the decoder, which has settled when it returns. An
    exception ends the handler where it is thrown. The [TypeError] of line
    79 leaves everything as it was. An exception of the decoding, at line
    82, comes when the cursor has been anchored, and the test of line 91 is
    not reached. *)
Definition onmessage (now : Q) (message : LiveServerMessage) (st : State) : State :=
  if parts_missing message then st
  else
    match audio_payload message with
    | Some base64 =>
        let st := anchor now st in
        match decode_segment base64 with
        | Some b => on_interrupted message (schedule b st)
        | None => st
        end
    | None => on_interrupted message st
    end.

(** [onopen], line 64. *)
Definition onopen (st : State) : State := setIsActive true st.

(** [onclose], line 97. *)
Definition onclose (st : State) : State := setIsActive false st.

(** [onerror], line 98. *)
Definition onerror (e : string) (st : State) : State :=
  {| isActive := isActive st; sessionRef := sessionRef st;
     nextStartTimeRef := nextStartTimeRef st; sourcesRef := sourcesRef st;
     sourceNodes := sourceNodes st; closedSessions := closedSessions st;
     console := console st ++ [e] |}.

(** Line 106: [sessionRef.current = await sessionPromise]. *)
Definition session_resolved (session : nat) (st : State) : State :=
  {| isActive := isActive st; sessionRef := Some session;
     nextStartTimeRef := nextStartTimeRef st; sourcesRef := sourcesRef st;
     sourceNodes := sourceNodes st; closedSessions := closedSessions st;
     console := console st |}.

(** [stopSession], lines 109 to 115: the [stop] of the specification. *)
Definition stopSession (st : State) : State :=
  let st :=
    match sessionRef st with
    | Some session =>
        {| isActive := isActive st; sessionRef := None;
           nextStartTimeRef := nextStartTimeRef st; sourcesRef := sourcesRef st;
           sourceNodes := sourceNodes st;
           closedSessions := closedSessions st ++ [session];
           console := console st |}
    | None => st
    end in
  setIsActive false st.

(** The callbacks and the user's action as one event type. *)
Inductive Event : Type :=
  | Open
  | Resolved (session : nat)
  | Message (now : Q) (message : LiveServerMessage)
  | Ended (source : nat)
  | Close
  | Error (e : string)
  | Stop.

Definition handle (ev : Event) (st : State) : State :=
  match ev with
  | Open => onopen st
  | Resolved session => session_resolved session st
  | Message now message => onmessage now message st
  | Ended source => onended source st
  | Close => onclose st
  | Error e => onerror e st
  | Stop => stopSession st
  end.

(** A run of enqueued segments, each with the reading of the audio clock at
    its arrival. *)
Definition enqueue_all (segments : list (Q * AudioBuffer)) (st : State) : State :=
  foldl (λ st seg, enqueue seg.1 seg.2 st) st segments.

(** The component after a sequence of events, the first event first. *)
Definition run (events : list Event) (st : State) : State :=
  foldl (λ st ev, handle ev st) st events.

End LiveInterface.

(** ** The notes component

    The same source file goes on, after line 146, with the notes component
    [NotesInterface]. Its handlers are list operations over the React state.
    [Date.now()] and the answer to [confirm] are arguments of the handlers
    that ask for them, and [trim] and [toLowerCase], which the platform
    gives, are arguments of the one that uses them. A string of this
    component is a [string]. *)

Module NotesInterface.

(** A [Note] and a [Folder], with the fields that the component reads and
    writes; [folderId] and [summary] may be [undefined]. *)
Record Note : Type := {
  id : string;
  title : string;
  content : string;
  tags : list string;
  dateCreated : Z;
  folderId : option string;
  summary : option string
}.

Record Folder : Type := {
  folder_id : string;
  name : string;
  folder_dateCreated : Z;
  color : option string
}.

Inductive ViewState : Type := ViewFolders | ViewNotes | ViewEditor.

Record State : Type := {
  notes : list Note;
  folders : list Folder;
  activeNote : option Note;
  activeFolderId : string;     (* ['all'], ['none'] or the id of a folder *)
  tagInput : string;
  viewState : ViewState
}.

(** [!n.folderId]: [undefined] and the empty string are falsy. *)
Definition no_folder (f : option string) : bool :=
  match f with
  | Some s => String.eqb s ""
  | None => true
  end.

(** [n.folderId === id] *)
Definition in_folder (id : string) (f : option string) : bool :=
  match f with
  | Some s => String.eqb s id
  | None => false
  end.

(** [filteredNotes], lines 288 to 292. *)
Definition filteredNotes (st : State) : list Note :=
  if String.eqb (activeFolderId st) "all" then notes st
  else if String.eqb (activeFolderId st) "none"
       then List.filter (λ n, no_folder (folderId n)) (notes st)
       else List.filter (λ n, in_folder (activeFolderId st) (folderId n)) (notes st).

(** [createNote], lines 199 to 212, when [Date.now()] gives [now] at line
    201 and [later] at line 205. *)
Definition createNote (now later : Z) (st : State) : State :=
  let newNote :=
    {| id := NilZero.string_of_int (Z.to_int now);
       title := ""; content := ""; tags := [];
       dateCreated := later;
       folderId :=
         if negb (String.eqb (activeFolderId st) "all")
            && negb (String.eqb (activeFolderId st) "none")
         then Some (activeFolderId st) else None;
       summary := None |} in
  {| notes := newNote :: notes st; folders := folders st;
     activeNote := Some newNote; activeFolderId := activeFolderId st;
     tagInput := tagInput st; viewState := ViewEditor |}.

Definition clear_folder (n : Note) : Note :=
  {| id := id n; title := title n; content := content n; tags := tags n;
     dateCreated := dateCreated n; folderId := None; summary := summary n |}.

(** [deleteFolder], lines 236 to 243; [confirmed] is the answer to
    [confirm]. *)
Definition deleteFolder (id0 : string) (confirmed : bool) (st : State) : State :=
  if confirmed then
    {| notes := map (λ n, if in_folder id0 (folderId n) then clear_folder n else n) (notes st);
       folders := List.filter (λ f, negb (String.eqb (folder_id f) id0)) (folders st);
       activeNote := activeNote st;
       activeFolderId :=
         if String.eqb (activeFolderId st) id0 then "all"%string else activeFolderId st;
       tagInput := tagInput st; viewState := viewState st |}
  else st.

(** The [Partial<Note>] given to [updateActiveNote], with the keys that its
    callers pass; a key that is absent is [None], and [folderId] and
    [summary] may be given as [undefined]. *)
Record NoteUpdates : Type := {
  new_title : option string;
  new_content : option string;
  new_tags : option (list string);
  new_folderId : option (option string);
  new_summary : option (option string)
}.

(** [{ ...activeNote, ...updates }] *)
Definition spread (n : Note) (updates : NoteUpdates) : Note :=
  {| id := id n;
     title := default (title n) (new_title updates);
     content := default (content n) (new_content updates);
     tags := default (tags n) (new_tags updates);
     dateCreated := dateCreated n;
     folderId := default (folderId n) (new_folderId updates);
     summary := default (summary n) (new_summary updates) |}.

(** [updateActiveNote], lines 245 to 250. The function reads the
    [activeNote] of the render that made it, which is its first argument
    here: the open note of the state, when a handler of the last render
    calls it, and the note that was open before, when it is called after an
    [await] (line 274). The list of notes is read when the update is
    applied. *)
Definition updateActiveNote (active : option Note) (updates : NoteUpdates) (st : State)
  : State :=
  match active with
  | None => st
  | Some active =>
      let updated := spread active updates in
      {| notes := map (λ n, if String.eqb (id n) (id updated) then updated else n) (notes st);
         folders := folders st;
         activeNote := Some updated; activeFolderId := activeFolderId st;
         tagInput := tagInput st; viewState := viewState st |}
  end.

(** [deleteNote], lines 252 to 259. *)
Definition deleteNote (id0 : string) (confirmed : bool) (st : State) : State :=
  if confirmed then
    {| notes := List.filter (λ n, negb (String.eqb (id n) id0)) (notes st);
       folders := folders st;
       activeNote :=
         match activeNote st with
         | Some active => if String.eqb (id active) id0 then None else Some active
         | None => None
         end;
       activeFolderId := activeFolderId st;
       tagInput := tagInput st; viewState := ViewNotes |}
  else st.

Definition setTagInput (text : string) (st : State) : State :=
  {| notes := notes st; folders := folders st; activeNote := activeNote st;
     activeFolderId := activeFolderId st; tagInput := text; viewState := viewState st |}.

Definition tags_only (l : list string) : NoteUpdates :=
  {| new_title := None; new_content := None; new_tags := Some l;
     new_folderId := None; new_summary := None |}.

(** [addTag], lines 261 to 267; [enter] is [e.key === 'Enter']. *)
Definition addTag (trim toLowerCase : string → string) (enter : bool) (st : State)
  : State :=
  match activeNote st with
  | Some active =>
      if enter && negb (String.eqb (trim (tagInput st)) "") then
        let tag := toLowerCase (trim (tagInput st)) in
        let st :=
          if existsb (String.eqb tag) (tags active) then st
          else updateActiveNote (Some active) (tags_only (tags active ++ [tag])) st in
        setTagInput "" st
      else st
  | None => st
  end.

Definition summary_only (text : string) : NoteUpdates :=
  {| new_title := None; new_content := None; new_tags := None;
     new_folderId := None; new_summary := Some (Some text) |}.

(** [handleSummarize], lines 269 to 280, from its [await] on, for a call
    that passed the test of line 270 with the note [active] open. [summary]
    is the answer of the service, none when it gave none or threw; the
    update is made with the [activeNote] of the render of the call. The
    flag [isSummarizing] is left out. *)
Definition handleSummarize_answer (active : Note) (summary : option string) (st : State)
  : State :=
  match summary with
  | Some text =>
      if String.eqb text "" then st
      else updateActiveNote (Some active) (summary_only text) st
  | None => st
  end.

(** [handleFolderSelect], lines 304 to 307. *)
Definition handleFolderSelect (id0 : string) (st : State) : State :=
  {| notes := notes st; folders := folders st; activeNote := activeNote st;
     activeFolderId := id0; tagInput := tagInput st; viewState := ViewNotes |}.

End NotesInterface.

(** ** [src/components/AudioOverview.tsx] *)

Module AudioOverview.
Import JS WebAudio.

(** [function decodeBase64(base64: string)] *)
Definition decodeBase64 (base64 : jsstring) : option Uint8Array :=
  binaryString ← Base64.atob base64;
  let len := length binaryString in
  let bytes := new_Uint8Array len in
  Some (for_loop len (λ i bytes, <[i := toUint8 (charCodeAt binaryString i)]> bytes) bytes).

(** [async function decodeAudioData(data, ctx, sampleRate, numChannels)],
    lines 20 to 37. *)
Definition decodeAudioData (data : Uint8Array) (sampleRate : Q) (numChannels : nat)
  : option AudioBuffer :=
  dataInt16 ← Int16Array_of_buffer data;
  let frameCount :=
    (inject_Z (Z.of_nat (length dataInt16)) / inject_Z (Z.of_nat numChannels))%Q in
  buffer ← createBuffer numChannels frameCount sampleRate;
  Some (for_loop numChannels (λ channel buffer,
          for_below frameCount (λ i buffer,
            set_sample buffer channel i
              (match dataInt16 !! (i * numChannels + channel)%nat with
               | Some v => div (of_int v) (of_int 32768)
               | None => NaN
               end))
            buffer)
          buffer).

(** *** The player of the component

    [audioBuffer], [isPlaying] and [currentTime] are the React state of the
    component (its [isGenerating] and [loadingStep] are left out); the
    others are its refs. [audioContextRef] tells whether the context has
    been created, and the reading of its clock is an argument [now] of the
    handlers that read it. A source node is named by its rank in
    [playerNodes], the list of the nodes created so far, and a timer by its
    rank in [intervals]; the identifier of a timer is never falsy. *)

Record PlayerNode : Type := {
  nodeBuffer : AudioBuffer;   (* [sourceNode.buffer] *)
  startOffset : option Q;     (* the offset given to [start], once it was called *)
  nodeStopped : bool          (* [stop()] was called, and did not throw *)
}.

Record Interval : Type := {
  intervalBuffer : AudioBuffer;   (* the [buffer] of the call that set the timer *)
  cleared : bool
}.

Record Player : Type := {
  audioBuffer : option AudioBuffer;
  isPlaying : bool;
  currentTime : Q;
  audioContextRef : bool;
  activeSourceNodeRef : option nat;
  progressIntervalRef : option nat;
  startTimeRef : Q;
  offsetRef : Q;
  playerNodes : list PlayerNode;
  intervals : list Interval
}.

(** The state of a freshly mounted component. *)
Definition mounted : Player :=
  {| audioBuffer := None; isPlaying := false; currentTime := 0;
     audioContextRef := false; activeSourceNodeRef := None;
     progressIntervalRef := None; startTimeRef := 0; offsetRef := 0;
     playerNodes := []; intervals := [] |}.

(** The literal [0.1]: the binary64 number nearest to one tenth. *)
Definition tenth : Q := 3602879701896397 # 36028797018963968.

(** [formatTime], lines 57 to 61, for a time that is not negative and is
    below 2^53, as the position and the duration that the component gives
    it are: the quotient by 60 of the platform, which is rounded, then has
    the whole part of the exact quotient, and its remainder is exact. The
    other times are left out: the answer is [None]. *)
Definition formatTime (seconds : Q) : option jsstring :=
  if negb (Qle_bool 0 seconds) || Qle_bool (inject_Z (2 ^ 53)) seconds then None
  else
    let mins := Qfloor (seconds / 60) in
    let secs := Qfloor (remainder seconds 60) in
    mins_text ← Number_toString mins;
    secs_text ← Number_toString secs;
    Some (mins_text ++ code_units ":" ++ padStart 2 48 secs_text).

(** [try { node.stop(); } catch (e) {}]: [stop] throws on a node that was
    not started, and the exception is dropped. *)
Definition stop_node (n : PlayerNode) : PlayerNode :=
  match startOffset n with
  | Some _ => {| nodeBuffer := nodeBuffer n; startOffset := startOffset n;
                 nodeStopped := true |}
  | None => n
  end.

Definition stop_active (active : option nat) (nodes : list PlayerNode) : list PlayerNode :=
  match active with
  | Some k => alter stop_node k nodes
  | None => nodes
  end.

Definition clear_interval (iv : Interval) : Interval :=
  {| intervalBuffer := intervalBuffer iv; cleared := true |}.

(** [if (progressIntervalRef.current) window.clearInterval(...)] *)
Definition clear_progress (timer : option nat) (ivs : list Interval) : list Interval :=
  match timer with
  | Some t => alter clear_interval t ivs
  | None => ivs
  end.

(** [stopPlayback], lines 63 to 72. *)
Definition stopPlayback (st : Player) : Player :=
  {| audioBuffer := audioBuffer st; isPlaying := false;
     currentTime := currentTime st; audioContextRef := audioContextRef st;
     activeSourceNodeRef := None;
     progressIntervalRef := progressIntervalRef st;
     startTimeRef := startTimeRef st; offsetRef := offsetRef st;
     playerNodes := stop_active (activeSourceNodeRef st) (playerNodes st);
     intervals := clear_progress (progressIntervalRef st) (intervals st) |}.

(** Lines 75 to 77, and line 130: the context is created when there is
    none. *)
Definition ensure_context (st : Player) : Player :=
  {| audioBuffer := audioBuffer st; isPlaying := isPlaying st;
     currentTime := currentTime st; audioContextRef := true;
     activeSourceNodeRef := activeSourceNodeRef st;
     progressIntervalRef := progressIntervalRef st;
     startTimeRef := startTimeRef st; offsetRef := offsetRef st;
     playerNodes := playerNodes st; intervals := intervals st |}.

(** [startPlayback], lines 74 to 100, when the clock reads [now].
    [start(0, fromOffset)] throws a [RangeError] on a negative offset: the
    handler ends there, with the node created and not started, and no timer
    set. *)
Definition startPlayback (now : Q) (buffer : AudioBuffer) (fromOffset : Q) (st : Player)
  : Player :=
  let st := stopPlayback (ensure_context st) in
  let sourceNode := length (playerNodes st) in
  if Qle_bool 0 fromOffset then
    {| audioBuffer := audioBuffer st; isPlaying := true;
       currentTime := fromOffset; audioContextRef := audioContextRef st;
       activeSourceNodeRef := Some sourceNode;
       progressIntervalRef := Some (length (intervals st));
       startTimeRef := now; offsetRef := fromOffset;
       playerNodes :=
         playerNodes st ++
           [{| nodeBuffer := buffer; startOffset := Some fromOffset; nodeStopped := false |}];
       intervals := intervals st ++ [{| intervalBuffer := buffer; cleared := false |}] |}
  else
    {| audioBuffer := audioBuffer st; isPlaying := true;
       currentTime := fromOffset; audioContextRef := audioContextRef st;
       activeSourceNodeRef := Some sourceNode;
       progressIntervalRef := progressIntervalRef st;
       startTimeRef := now; offsetRef := fromOffset;
       playerNodes :=
         playerNodes st ++
           [{| nodeBuffer := buffer; startOffset := None; nodeStopped := false |}];
       intervals := intervals st |}.

(** [sourceNode.onended], lines 86 to 92, for the node of rank [source]
    when the clock reads [now]: the refs are read when the event fires. *)
Definition onended (source : nat) (now : Q) (st : Player) : Player :=
  match playerNodes st !! source with
  | Some node =>
      let elapsed := (now - startTimeRef st + offsetRef st)%Q in
      if audioContextRef st
         && negb (Qle_bool tenth (Qabs (elapsed - duration (nodeBuffer node))))
      then
        {| audioBuffer := audioBuffer st; isPlaying := false;
           currentTime := 0; audioContextRef := audioContextRef st;
           activeSourceNodeRef := activeSourceNodeRef st;
           progressIntervalRef := progressIntervalRef st;
           startTimeRef := startTimeRef st; offsetRef := 0;
           playerNodes := playerNodes st; intervals := intervals st |}
      else st
  | None => st
  end.

Definition setCurrentTime (t : Q) (st : Player) : Player :=
  {| audioBuffer := audioBuffer st; isPlaying := isPlaying st;
     currentTime := t; audioContextRef := audioContextRef st;
     activeSourceNodeRef := activeSourceNodeRef st;
     progressIntervalRef := progressIntervalRef st;
     startTimeRef := startTimeRef st; offsetRef := offsetRef st;
     playerNodes := playerNodes st; intervals := intervals st |}.

(** The callback of the timer of rank [timer], lines 95 to 99, when the
    clock reads [now]; a timer that was cleared does not fire. *)
Definition tick (timer : nat) (now : Q) (st : Player) : Player :=
  match intervals st !! timer with
  | Some iv =>
      if cleared iv then st
      else if audioContextRef st then
        let elapsed := (now - startTimeRef st + offsetRef st)%Q in
        setCurrentTime (Qmin elapsed (duration (intervalBuffer iv))) st
      else st
  | None => st
  end.

(** [pauseAudio], lines 102 to 109. *)
Definition pauseAudio (now : Q) (st : Player) : Player :=
  match activeSourceNodeRef st with
  | Some _ =>
      if audioContextRef st then
        {| audioBuffer := audioBuffer st; isPlaying := false;
           currentTime := currentTime st; audioContextRef := audioContextRef st;
           activeSourceNodeRef := None;
           progressIntervalRef := progressIntervalRef st;
           startTimeRef := startTimeRef st;
           offsetRef := (offsetRef st + (now - startTimeRef st))%Q;
           playerNodes := stop_active (activeSourceNodeRef st) (playerNodes st);
           intervals := clear_progress (progressIntervalRef st) (intervals st) |}
      else st
  | None => st
  end.

(** [resumeAudio], line 111. *)
Definition resumeAudio (now : Q) (st : Player) : Player :=
  match audioBuffer st with
  | Some buffer => startPlayback now buffer (offsetRef st) st
  | None => st
  end.

(** [handleSeek], lines 113 to 116; [newTime] is the value of the slider. *)
Definition handleSeek (now newTime : Q) (st : Player) : Player :=
  match audioBuffer st with
  | Some buffer => startPlayback now buffer newTime st
  | None => st
  end.

(** [generateAudio], lines 118 to 143, of a component that has sources, up
    to its [await]: lines 121 to 123. *)
Definition generateAudio_begin (st : Player) : Player :=
  {| audioBuffer := None; isPlaying := isPlaying st;
     currentTime := 0; audioContextRef := audioContextRef st;
     activeSourceNodeRef := activeSourceNodeRef st;
     progressIntervalRef := progressIntervalRef st;
     startTimeRef := startTimeRef st; offsetRef := 0;
     playerNodes := playerNodes st; intervals := intervals st |}.

Definition setAudioBuffer (buffer : AudioBuffer) (st : Player) : Player :=
  {| audioBuffer := Some buffer; isPlaying := isPlaying st;
     currentTime := currentTime st; audioContextRef := audioContextRef st;
     activeSourceNodeRef := activeSourceNodeRef st;
     progressIntervalRef := progressIntervalRef st;
     startTimeRef := startTimeRef st; offsetRef := offsetRef st;
     playerNodes := playerNodes st; intervals := intervals st |}.

(** The segment of lines 131 and 132. *)
Definition decode_overview (audioBase64 : jsstring) : option AudioBuffer :=
  bytes ← decodeBase64 audioBase64;
  decodeAudioData bytes 24000 1.

(** [generateAudio] from its [await] on, lines 129 to 135, when the service
    has answered [audioBase64]: nothing is done with an answer that is empty
    (or missing), and an exception of the decoding is caught, after the
    context was created. *)
Definition generateAudio_answer (now : Q) (audioBase64 : jsstring) (st : Player)
  : Player :=
  match audioBase64 with
  | [] => st
  | _ =>
      let st := ensure_context st in
      match decode_overview audioBase64 with
      | Some buffer => startPlayback now buffer 0 (setAudioBuffer buffer st)
      | None => st
      end
  end.

(** The user's actions, the timers and the nodes' events as one type. *)
Inductive PlayerEvent : Type :=
  | Generate
  | Answer (now : Q) (audioBase64 : jsstring)
  | Pause (now : Q)
  | Resume (now : Q)
  | Seek (now newTime : Q)
  | Tick (timer : nat) (now : Q)
  | NodeEnded (source : nat) (now : Q)
  | Unmount.

Definition player_handle (ev : PlayerEvent) (st : Player) : Player :=
  match ev with
  | Generate => generateAudio_begin st
  | Answer now audioBase64 => generateAudio_answer now audioBase64 st
  | Pause now => pauseAudio now st
  | Resume now => resumeAudio now st
  | Seek now newTime => handleSeek now newTime st
  | Tick timer now => tick timer now st
  | NodeEnded source now => onended source now st
  | Unmount => stopPlayback st
  end.

Definition player_run (events : list PlayerEvent) (st : Player) : Player :=
  foldl (λ st ev, player_handle ev st) st events.

End AudioOverview.

(** ** The studio hub file *)

Module StudioHub.
Import JS WebAudio.

(** [function decodeBase64(base64: string)]: the length of the string is read
    again at each turn of the loop. *)
Definition decodeBase64 (base64 : jsstring) : option Uint8Array :=
  binaryString ← Base64.atob base64;
  let bytes := new_Uint8Array (length binaryString) in
  Some (for_loop (length binaryString)
          (λ i bytes, <[i := toUint8 (charCodeAt binaryString i)]> bytes) bytes).

(** [async function decodeAudioData(data, ctx, sampleRate, numChannels)] *)
Definition decodeAudioData (data : Uint8Array) (sampleRate : Q) (numChannels : nat)
  : option AudioBuffer :=
  dataInt16 ← Int16Array_of_buffer data;
  let frameCount :=
    (inject_Z (Z.of_nat (length dataInt16)) / inject_Z (Z.of_nat numChannels))%Q in
  buffer ← createBuffer numChannels frameCount sampleRate;
  Some (for_loop numChannels (λ channel buffer,
          for_below frameCount (λ i buffer,
            set_sample buffer channel i
              (match dataInt16 !! (i * numChannels + channel)%nat with
               | Some v => div (of_int v) (of_int 32768)
               | None => NaN
               end))
            buffer)
          buffer).

(** [playPodcast], lines 368 to 375: the buffer of the source node, which is
    started at once in a context of its own. *)
Definition playPodcast (base64 : jsstring) : option AudioBuffer :=
  bytes ← decodeBase64 base64;
  decodeAudioData bytes 24000 1.

End StudioHub.

(** ** Definitions used by the proofs *)

Module Base64Aux.
Local Open Scope N_scope.

(** The 6-bit values of a list of bytes, without the padding. *)
Fixpoint sextets (l : list N) : list N :=
  match l with
  | [] => []
  | [a] => let n := a * 16 in [n / 64; n mod 64]
  | [a; b] => let n := (a * 256 + b) * 4 in [n / 4096; (n / 64) mod 64; n mod 64]
  | a :: b :: c :: rest =>
      let n := (a * 256 + b) * 256 + c in
      n / 262144 :: (n / 4096) mod 64 :: (n / 64) mod 64 :: n mod 64 :: sextets rest
  end.

(** The padding that completes them. *)
Fixpoint padding (l : list N) : list N :=
  match l with
  | [] => []
  | [_] => [Base64.pad; Base64.pad]
  | [_; _] => [Base64.pad]
  | _ :: _ :: _ :: rest => padding rest
  end.

End Base64Aux.

(** All the integers of [[lo, lo + n)] pass the test. *)
Fixpoint range_all (n : nat) (lo : Z) (test : Z → bool) : bool :=
  match n with
  | O => true
  | S k => test lo && range_all k (lo + 1)%Z test
  end.

(** The nodes that a run of enqueues has created are back to back: each
    starts when the one before it has ended, or later, and all have ended
    when the cursor is reached. *)
Definition back_to_back (nodes : list LiveInterface.SourceNode) (cursor : Q) : Prop :=
  (∀ i n1 n2, nodes !! i = Some n1 → nodes !! S i = Some n2 →
     (LiveInterface.startTime n1 <= LiveInterface.startTime n2)%Q
     ∧ (LiveInterface.startTime n1 + WebAudio.duration (LiveInterface.buffer n1)
        <= LiveInterface.startTime n2)%Q)
  ∧ (∀ i n, nodes !! i = Some n →
       (LiveInterface.startTime n <= cursor)%Q
       ∧ (LiveInterface.startTime n + WebAudio.duration (LiveInterface.buffer n)
          <= cursor)%Q).


(** The message carries the segment: its audio payload decodes to the
    segment, and it has no interruption signal. *)
Definition carries (message : LiveInterface.LiveServerMessage)
    (seg : WebAudio.AudioBuffer) : Prop :=
  ∃ base64,
    LiveInterface.audio_payload message = Some base64
    ∧ LiveInterface.decode_segment base64 = Some seg
    ∧ LiveInterface.interrupted message = false.

(** Messages given with the reading of the audio clock at their arrival and
    with the segment they carry: the events of their arrival, and their
    segments. *)
Definition arrival_events
    (arrivals : list (Q * LiveInterface.LiveServerMessage * WebAudio.AudioBuffer))
  : list LiveInterface.Event :=
  map (λ a, LiveInterface.Message a.1.1 a.1.2) arrivals.

Definition arrival_segments
    (arrivals : list (Q * LiveInterface.LiveServerMessage * WebAudio.AudioBuffer))
  : list (Q * WebAudio.AudioBuffer) :=
  map (λ a, (a.1.1, a.2)) arrivals.

(** A message whose only part holds the payload, without interruption
    signal. *)
Definition audio_message (base64 : list N) : LiveInterface.LiveServerMessage :=
  {| LiveInterface.modelTurn :=
       Some {| LiveInterface.parts := Some [Some base64] |};
     LiveInterface.interrupted := false |}.

(** The payload of [n] frames of silence at 16 bits, and the segment of
    these frames. *)
Definition silence (n : nat) : list N :=
  Base64.encode_groups (map Byte.to_N (replicate (2 * n) x00)).

Definition silent_segment (n : nat) : WebAudio.AudioBuffer :=
  {| WebAudio.numberOfChannels := 1; WebAudio.frames := n;
     WebAudio.sampleRate := 24000;
     WebAudio.channelData := [replicate n (S754_zero false)] |}.

(** The nodes of the active set exist and were not stopped. *)
Definition active_sound (st : LiveInterface.State) : Prop :=
  ∀ h, h ∈ LiveInterface.sourcesRef st →
    ∃ n, LiveInterface.sourceNodes st !! h = Some n ∧ LiveInterface.stopped n = false.

(** The event is a message with the interruption signal. *)
Definition interrupting (ev : LiveInterface.Event) : bool :=
  match ev with
  | LiveInterface.Message _ message => LiveInterface.interrupted message
  | _ => false
  end.

(** At most one node of the player sounds, and at most one of its timers
    runs: a node that was started and not stopped is the one of
    [activeSourceNodeRef], a timer that was not cleared is the one of
    [progressIntervalRef]. *)
Definition single_voice (st : AudioOverview.Player) : Prop :=
  (∀ k n, AudioOverview.playerNodes st !! k = Some n →
     AudioOverview.startOffset n ≠ None → AudioOverview.nodeStopped n = false →
     AudioOverview.activeSourceNodeRef st = Some k)
  ∧ (∀ t iv, AudioOverview.intervals st !! t = Some iv →
       AudioOverview.cleared iv = false →
       AudioOverview.progressIntervalRef st = Some t).

(** The note that is open in the editor, if there is one, is a note of the
    list. *)
Definition listed (st : NotesInterface.State) : Prop :=
  ∀ n, NotesInterface.activeNote st = Some n → n ∈ NotesInterface.notes st.

(** * Proofs *)

Import JS.

(** [lia] with quotients and remainders. *)
Ltac Zify.zify_post_hook ::= Z.to_euclidean_division_equations.

(** ** Loops *)

Lemma for_loop_S {S : Type} (n : nat) (body : nat → S → S) (s : S) :
  for_loop (Datatypes.S n) body s = body n (for_loop n body s).
Proof.
  unfold for_loop. rewrite seq_S, foldl_app. reflexivity.
Qed.

Lemma for_loop_append {A : Type} (f : nat → A) (n : nat) (s0 : list A) :
  for_loop n (λ i s, s ++ [f i]) s0 = s0 ++ map f (seq 0 n).
Proof.
  induction n as [|n IH].
  - unfold for_loop. simpl. symmetry. apply app_nil_r.
  - rewrite for_loop_S, IH, seq_S, map_app, app_assoc. reflexivity.
Qed.

Lemma for_loop_store_length {A : Type} (g : nat → A) (n : nat) (a0 : list A) :
  length (for_loop n (λ i a, <[i := g i]> a) a0) = length a0.
Proof.
  induction n as [|n IH]; [done|].
  by rewrite for_loop_S, length_insert.
Qed.

(** A loop of stores fills the cells below its bound and leaves the rest. *)
Lemma for_loop_store_lookup {A : Type} (g : nat → A) (n : nat) (a0 : list A) (j : nat) :
  for_loop n (λ i a, <[i := g i]> a) a0 !! j =
  if decide (j < n ∧ j < length a0)%nat then Some (g j) else a0 !! j.
Proof.
  induction n as [|n IH].
  - change (for_loop 0 _ a0) with a0. case_decide; [lia | done].
  - rewrite for_loop_S. destruct (decide (j = n)) as [->|Hne].
    + destruct (decide (n < length a0)%nat) as [Hlt|Hge].
      * rewrite list_lookup_insert_eq by (rewrite for_loop_store_length; lia).
        clear IH. case_decide; [done | lia].
      * rewrite list_insert_ge by (rewrite for_loop_store_length; lia).
        rewrite IH. repeat case_decide; try lia; done.
    + rewrite list_lookup_insert_ne by done. rewrite IH.
      repeat case_decide; try lia; done.
Qed.

Lemma for_loop_store_all {A : Type} (g : nat → A) (n : nat) (a0 : list A) :
  length a0 = n →
  for_loop n (λ i a, <[i := g i]> a) a0 = map g (seq 0 n).
Proof.
  intros Hlen. apply list_eq. intros j.
  rewrite for_loop_store_lookup, list_lookup_fmap.
  destruct (decide (j < n)%nat) as [Hlt|Hge].
  - rewrite lookup_seq_lt by done. simpl. case_decide; [done | lia].
  - rewrite lookup_seq_ge by lia. simpl. case_decide; [lia|].
    apply lookup_ge_None. lia.
Qed.

(** ** Exhaustive checks over a range of integers *)

Lemma range_all_spec (n : nat) (lo : Z) (test : Z → bool) :
  range_all n lo test = true →
  ∀ z : Z, (lo ≤ z < lo + Z.of_nat n)%Z → test z = true.
Proof.
  revert lo. induction n as [|n IH]; intros lo Hall z Hz; [lia|].
  cbn [range_all] in Hall. apply andb_true_iff in Hall as [Hlo Hrest].
  destruct (Z.eq_dec z lo) as [->|Hne]; [done|].
  apply (IH (lo + 1)%Z); [done | lia].
Qed.

(** ** The codec of the platform *)

Section Base64Facts.
Import Base64 Base64Aux.
Local Open Scope N_scope.

(** Induction over a list of bytes, three at a time. *)
Lemma list_ind_by_3 {A : Type} (P : list A → Prop) :
  P [] → (∀ a, P [a]) → (∀ a b, P [a; b]) →
  (∀ a b c rest, P rest → P (a :: b :: c :: rest)) →
  ∀ l, P l.
Proof.
  intros H0 H1 H2 H3.
  assert (Hall : ∀ l, P l ∧ (∀ a, P (a :: l)) ∧ (∀ a b, P (a :: b :: l))).
  { induction l as [|x l (IHa & IHb & IHc)]; [by auto|].
    repeat split; intros; auto. }
  intros l. apply Hall.
Qed.

Lemma b64_char_spec (v : N) :
  v < 64 →
  b64_value (b64_char v) = Some v
  ∧ is_ascii_whitespace (b64_char v) = false
  ∧ (b64_char v =? pad) = false.
Proof.
  intros Hv.
  pose (test := λ z : Z,
    let c := b64_char (Z.to_N z) in
    match b64_value c with
    | Some w => (w =? Z.to_N z) && negb (is_ascii_whitespace c) && negb (c =? pad)
    | None => false
    end).
  assert (Hall : range_all 64 0 test = true) by (vm_compute; reflexivity).
  pose proof (range_all_spec _ _ _ Hall (Z.of_N v) ltac:(lia)) as Ht.
  unfold test in Ht. cbv zeta in Ht. rewrite N2Z.id in Ht.
  destruct (b64_value (b64_char v)) as [w|]; [|done].
  apply andb_true_iff in Ht as [Ht Hp]. apply andb_true_iff in Ht as [Hw Hs].
  apply N.eqb_eq in Hw as ->.
  apply negb_true_iff in Hp, Hs. done.
Qed.

Lemma encode_groups_split (l : list N) :
  encode_groups l = map b64_char (sextets l) ++ padding l.
Proof.
  induction l as [| a | a b | a b c rest IH] using list_ind_by_3; try reflexivity.
  cbn [encode_groups sextets padding map app]. by rewrite IH.
Qed.

Lemma padding_cases (l : list N) :
  padding l = [] ∨ padding l = [pad] ∨ padding l = [pad; pad].
Proof.
  induction l as [| a | a b | a b c rest IH] using list_ind_by_3; cbn [padding]; auto.
Qed.

Lemma sextets_bounded (l : list N) :
  Forall (λ b, b < 256) l → Forall (λ v, v < 64) (sextets l).
Proof.
  induction l as [| a | a b | a b c rest IH] using list_ind_by_3; intros Hl.
  - constructor.
  - apply Forall_cons in Hl as [Ha _]. cbn [sextets].
    repeat (apply Forall_cons_2; [lia|]). apply Forall_nil_2.
  - apply Forall_cons in Hl as [Ha Hl]. apply Forall_cons in Hl as [Hb _].
    cbn [sextets]. repeat (apply Forall_cons_2; [lia|]). apply Forall_nil_2.
  - apply Forall_cons in Hl as [Ha Hl]. apply Forall_cons in Hl as [Hb Hl].
    apply Forall_cons in Hl as [Hc Hl]. cbn [sextets].
    repeat (apply Forall_cons_2; [lia|]). by apply IH.
Qed.

(** The bytes are recovered from their 6-bit values. *)
Lemma decode_groups_sextets (l : list N) :
  Forall (λ b, b < 256) l → decode_groups (sextets l) = l.
Proof.
  induction l as [| a | a b | a b c rest IH] using list_ind_by_3; intros Hl.
  - reflexivity.
  - apply Forall_cons in Hl as [Ha _]. cbn [sextets decode_groups].
    f_equal. lia.
  - apply Forall_cons in Hl as [Ha Hl]. apply Forall_cons in Hl as [Hb _].
    cbn [sextets decode_groups]. repeat f_equal; lia.
  - apply Forall_cons in Hl as [Ha Hl]. apply Forall_cons in Hl as [Hb Hl].
    apply Forall_cons in Hl as [Hc Hl]. cbn [sextets decode_groups].
    rewrite IH by done. repeat f_equal; lia.
Qed.

Lemma mod_4_step (n : nat) : (S (S (S (S n))) mod 4 = n mod 4)%nat.
Proof.
  replace (S (S (S (S n)))) with (n + 1 * 4)%nat by lia.
  apply Nat.Div0.mod_add.
Qed.

Lemma encode_groups_length (l : list N) : (length (encode_groups l) mod 4 = 0)%nat.
Proof.
  induction l as [| a | a b | a b c rest IH] using list_ind_by_3; try reflexivity.
  cbn [encode_groups length]. by rewrite mod_4_step.
Qed.

Lemma sextets_length (l : list N) : (length (sextets l) mod 4 ≠ 1)%nat.
Proof.
  induction l as [| a | a b | a b c rest IH] using list_ind_by_3;
    try (cbn; lia).
  cbn [sextets length]. by rewrite mod_4_step.
Qed.

Lemma filter_all {A : Type} (f : A → bool) (l : list A) :
  Forall (λ x, f x = true) l → List.filter f l = l.
Proof.
  induction 1 as [|x l Hx _ IH]; [done|].
  cbn [List.filter]. by rewrite Hx, IH.
Qed.

(** The padding goes, and nothing else. *)
Lemma strip_padding_app (body : list N) (l : list N) :
  Forall (λ c, (c =? pad) = false) body →
  strip_padding (body ++ padding l) = body.
Proof.
  intros Hbody.
  assert (Hrev : Forall (λ c, (c =? pad) = false) (rev body))
    by (by apply Forall_rev).
  unfold strip_padding.
  destruct (padding_cases l) as [-> | [-> | ->]]; rewrite rev_app_distr.
  - cbn [rev app]. rewrite app_nil_r.
    destruct (rev body) as [|c1 r1] eqn:E; [done|].
    apply Forall_cons in Hrev as [-> _]. done.
  - cbn [rev app]. rewrite N.eqb_refl.
    destruct (rev body) as [|c2 r2] eqn:E.
    + rewrite <- E. apply rev_involutive.
    + apply Forall_cons in Hrev as [-> _]. rewrite <- E. apply rev_involutive.
  - cbn [rev app]. rewrite !N.eqb_refl. apply rev_involutive.
Qed.

Lemma mapM_b64_value (vs : list N) :
  Forall (λ v, v < 64) vs → mapM b64_value (map b64_char vs) = Some vs.
Proof.
  induction 1 as [|v vs Hv _ IH]; [done|].
  cbn [map mapM]. destruct (b64_char_spec v Hv) as (-> & _ & _).
  cbn. rewrite IH. done.
Qed.

(** [atob] undoes [btoa] on every string of code units below 256. *)
Lemma atob_encode_groups (l : list N) :
  Forall (λ b, b < 256) l → atob (encode_groups l) = Some l.
Proof.
  intros Hl. pose proof (sextets_bounded l Hl) as Hsx.
  assert (Hplain : Forall (λ c, (c =? pad) = false) (map b64_char (sextets l))).
  { apply Forall_fmap. eapply Forall_impl; [exact Hsx|].
    intros v Hv. cbn. by destruct (b64_char_spec v Hv) as (_ & _ & ->). }
  assert (Hws : Forall (λ c, negb (is_ascii_whitespace c) = true) (encode_groups l)).
  { rewrite encode_groups_split. apply Forall_app. split.
    - apply Forall_fmap. eapply Forall_impl; [exact Hsx|].
      intros v Hv. cbn. by destruct (b64_char_spec v Hv) as (_ & -> & _).
    - destruct (padding_cases l) as [-> | [-> | ->]]; repeat constructor. }
  unfold atob. rewrite (filter_all _ _ Hws).
  rewrite encode_groups_length. cbn [Nat.eqb].
  rewrite encode_groups_split, (strip_padding_app _ _ Hplain).
  rewrite length_map.
  destruct (Nat.eqb_spec (length (sextets l) mod 4) 1) as [E|_].
  - by apply sextets_length in E.
  - rewrite (mapM_b64_value _ Hsx). cbn. by rewrite decode_groups_sextets.
Qed.

Lemma btoa_bytes (l : list N) :
  Forall (λ b, b < 256) l → btoa l = Some (encode_groups l).
Proof.
  intros Hl. unfold btoa.
  replace (forallb (λ c, c <=? 255) l) with true; [done|].
  symmetry. apply forallb_forall. intros c Hc.
  rewrite Forall_forall in Hl. apply N.leb_le.
  apply list_elem_of_In, Hl in Hc. lia.
Qed.
End Base64Facts.

(** ** The transport codec of the component *)

Section Transport.
Import LiveInterface.

Lemma to_N_below_256 (bytes : Uint8Array) :
  Forall (λ b, (b < 256)%N) (map Byte.to_N bytes).
Proof.
  apply Forall_fmap, Forall_forall. intros b _. cbn.
  pose proof (Byte.to_N_bounded b). lia.
Qed.

(** The loop of [encode] builds the string whose code units are the bytes. *)
Lemma encode_binary (bytes : Uint8Array) :
  for_loop (length bytes) (λ i binary, binary ++ fromCharCode (Uint8_get bytes i)) []
  = map Byte.to_N bytes.
Proof.
  unfold fromCharCode.
  rewrite (for_loop_append (λ i, (Uint8_get bytes i mod 65536)%N)). cbn [app].
  apply list_eq. intros j. rewrite !list_lookup_fmap.
  destruct (decide (j < length bytes)%nat) as [Hlt|Hge].
  - rewrite lookup_seq_lt by done. cbn.
    destruct (lookup_lt_is_Some_2 bytes j Hlt) as [b Hb].
    unfold Uint8_get. rewrite Hb. cbn. f_equal.
    pose proof (Byte.to_N_bounded b). apply N.mod_small. lia.
  - rewrite lookup_seq_ge by lia. rewrite (lookup_ge_None_2 bytes j) by lia. done.
Qed.

(** The loop of [decode] builds the bytes of a string of code units that
    came from bytes. *)
Lemma decode_bytes (bytes : Uint8Array) :
  let binaryString := map Byte.to_N bytes in
  for_loop (length binaryString)
    (λ i out, <[i := toUint8 (charCodeAt binaryString i)]> out)
    (new_Uint8Array (length binaryString))
  = bytes.
Proof.
  intros binaryString.
  rewrite for_loop_store_all by apply length_replicate.
  unfold binaryString. rewrite length_map.
  apply list_eq. intros j. rewrite list_lookup_fmap.
  destruct (decide (j < length bytes)%nat) as [Hlt|Hge].
  - rewrite lookup_seq_lt by done. cbn.
    destruct (lookup_lt_is_Some_2 bytes j Hlt) as [b Hb].
    unfold charCodeAt. rewrite list_lookup_fmap, Hb. cbn.
    pose proof (Byte.to_N_bounded b).
    rewrite N.mod_small by lia. by rewrite Byte.of_to_N.
  - rewrite lookup_seq_ge by lia. rewrite (lookup_ge_None_2 bytes j) by lia. done.
Qed.

Lemma encode_Some (bytes : Uint8Array) :
  encode bytes = Some (Base64.encode_groups (map Byte.to_N bytes)).
Proof.
  unfold encode. cbv zeta. rewrite encode_binary.
  apply btoa_bytes, to_N_below_256.
Qed.

Lemma decode_encode_groups (bytes : Uint8Array) :
  decode (Base64.encode_groups (map Byte.to_N bytes)) = Some bytes.
Proof.
  unfold decode. rewrite atob_encode_groups by apply to_N_below_256.
  cbn [mbind option_bind]. cbv zeta. f_equal. apply decode_bytes.
Qed.

(** C3. For every sequence of bytes, [encode] returns a transport text, and
    [decode] of that text returns the same bytes: the round trip
    [decodeFromTransport(encodeToTransport(bytes)) == bytes]. *)
Theorem decode_encode_roundtrip (bytes : Uint8Array) :
  (text ← encode bytes; decode text) = Some bytes.
Proof.
  rewrite encode_Some. cbn [mbind option_bind]. apply decode_encode_groups.
Qed.
End Transport.

(** ** The PCM decoder *)

Section Decoder.
Import LiveInterface WebAudio.

Lemma int16_cells_length (data : list byte) :
  length (int16_cells data) = (length data / 2)%nat.
Proof.
  assert (Hall : ∀ l : list byte,
    length (int16_cells l) = (length l / 2)%nat
    ∧ ∀ a, length (int16_cells (a :: l)) = (length (a :: l) / 2)%nat).
  { induction l as [|x l [IHa IHb]]; [by auto|]. split; [apply IHb|].
    intros a. cbn [int16_cells length]. rewrite IHa.
    change (S (S (length l))) with (2 + length l)%nat.
    replace (2 + length l)%nat with (length l + 1 * 2)%nat by lia.
    rewrite Nat.div_add by lia. lia. }
  apply Hall.
Qed.

(** Every cell of the view is a signed 16-bit integer. *)
Lemma int16_cells_range (data : list byte) :
  Forall (λ v, -32768 ≤ v ≤ 32767)%Z (int16_cells data).
Proof.
  assert (Hall : ∀ l : list byte,
    Forall (λ v, -32768 ≤ v ≤ 32767)%Z (int16_cells l)
    ∧ ∀ a, Forall (λ v, -32768 ≤ v ≤ 32767)%Z (int16_cells (a :: l))).
  { induction l as [|x l [IHa IHb]]; [split; [|intros a]; constructor|].
    split; [apply IHb|]. intros a. cbn [int16_cells].
    apply Forall_cons_2; [|exact IHa].
    pose proof (Byte.to_N_bounded a). pose proof (Byte.to_N_bounded x).
    destruct (Z.leb_spec 32768 (Z.of_N (Byte.to_N a) + 256 * Z.of_N (Byte.to_N x))); lia. }
  apply Hall.
Qed.

(** The loop over the frames of one channel, as a loop over the cells of
    that channel's array. *)
Lemma frames_loop (g : nat → spec_float) (channel n : nat) (b : AudioBuffer) :
  for_loop n (λ i b, set_sample b channel i (g i)) b =
  {| numberOfChannels := numberOfChannels b;
     frames := frames b;
     sampleRate := sampleRate b;
     channelData :=
       alter (λ data, for_loop n (λ i data, <[i := fround (g i)]> data) data)
         channel (channelData b) |}.
Proof.
  induction n as [|n IH].
  - destruct b as [nc fr sr cd]. unfold for_loop at 1. cbn. f_equal.
    symmetry. apply list_alter_id. reflexivity.
  - rewrite for_loop_S, IH. unfold set_sample. cbn. f_equal.
    rewrite list_alter_alter_eq. apply list_alter_ext; [|reflexivity].
    intros data _. symmetry.
    apply (for_loop_S n (λ i data, <[i := fround (g i)]> data) data).
Qed.

(** The loop over the channels: the fields other than the samples stay, and
    the arrays of the channels below the bound are the ones filled. *)
Lemma channels_loop (g : nat → nat → spec_float) (k n : nat) (b : AudioBuffer) :
  let b' := for_loop k (λ channel b,
              for_loop n (λ i b, set_sample b channel i (g channel i)) b) b in
  numberOfChannels b' = numberOfChannels b
  ∧ frames b' = frames b
  ∧ sampleRate b' = sampleRate b
  ∧ length (channelData b') = length (channelData b)
  ∧ ∀ c, channelData b' !! c =
      if decide (c < k)%nat
      then (λ data, for_loop n (λ i data, <[i := fround (g c i)]> data) data)
             <$> channelData b !! c
      else channelData b !! c.
Proof.
  induction k as [|k IH]; cbv zeta.
  - change (for_loop 0 _ b) with b. split_and!; [done..|].
    intros c. case_decide; [lia|done].
  - rewrite for_loop_S, frames_loop. cbn.
    cbv zeta in IH. destruct IH as (-> & -> & -> & Hlen & Hget).
    split_and!; [done..|by rewrite length_alter|].
    intros c. destruct (decide (c = k)) as [->|Hne].
    + rewrite list_lookup_alter_eq, Hget. repeat case_decide; try lia. done.
    + rewrite list_lookup_alter_ne by done. rewrite Hget.
      repeat case_decide; try lia; done.
Qed.

(** Stores past the end of the array do nothing: a loop that covers the
    array fills it. *)
Lemma for_loop_store_cover {A : Type} (h : nat → A) (n : nat) (a0 : list A) :
  (length a0 ≤ n)%nat →
  for_loop n (λ i a, <[i := h i]> a) a0 = map h (seq 0 (length a0)).
Proof.
  intros Hcover. apply list_eq. intros j.
  rewrite for_loop_store_lookup, list_lookup_fmap.
  destruct (decide (j < length a0)%nat) as [Hlt|Hge].
  - rewrite lookup_seq_lt by done. case_decide; [done | lia].
  - rewrite lookup_seq_ge by lia. case_decide; [lia|].
    apply lookup_ge_None. lia.
Qed.

Lemma Qfloor_quotient (a b : nat) :
  b ≠ 0%nat →
  Z.to_nat (Qfloor (inject_Z (Z.of_nat a) / inject_Z (Z.of_nat b))) = (a / b)%nat.
Proof.
  intros Hb. destruct b as [|b]; [done|].
  rewrite <- (Nat2Z.id (a / S b)), Nat2Z.inj_div. f_equal.
  cbn [Z.of_nat]. unfold Qfloor, Qdiv, Qmult, Qinv, inject_Z. cbn [Qnum Qden].
  by rewrite Z.mul_1_r, Pos.mul_1_l.
Qed.

(** The decoder as a function of its input: the view of 16-bit cells is cut
    into frames of [numChannels] cells, and the sample of channel [c] in
    frame [i] is the quotient of cell [i * numChannels + c], kept as a
    binary32 value. It throws on an odd number of bytes, on no channel, on
    less than one frame and on a sample rate that is not positive. *)
Lemma decodeAudioData_eq (data : list byte) (sampleRate : Q) (numChannels : nat) :
  decodeAudioData data sampleRate numChannels =
  if Nat.even (length data) then
    let cells := int16_cells data in
    let n := (length cells / numChannels)%nat in
    if (numChannels =? 0)%nat || (n =? 0)%nat || Qle_bool sampleRate 0 then None
    else Some {| numberOfChannels := numChannels;
                 frames := n;
                 sampleRate := sampleRate;
                 channelData :=
                   map (λ c, map (λ i, fround (pcm16ToFloat (cells !! (i * numChannels + c)%nat)))
                               (seq 0 n))
                       (seq 0 numChannels) |}
  else None.
Proof.
  unfold decodeAudioData, Int16Array_of_buffer.
  destruct (Nat.even (length data)); [|done]. cbn [mbind option_bind]. cbv zeta.
  set (cells := int16_cells data).
  set (frameCount := (inject_Z (Z.of_nat (length cells)) / inject_Z (Z.of_nat numChannels))%Q).
  unfold createBuffer.
  destruct (Nat.eqb_spec numChannels 0) as [->|Hnc]; [done|].
  assert (Hfloor : Z.to_nat (Qfloor frameCount) = (length cells / numChannels)%nat)
    by (by apply Qfloor_quotient).
  rewrite Hfloor. set (n := (length cells / numChannels)%nat) in *.
  cbn [orb]. destruct ((n =? 0)%nat || Qle_bool sampleRate 0); [done|].
  cbn [mbind option_bind]. f_equal.
  match goal with |- for_loop _ _ ?b0 = _ => set (b := b0) end.
  unfold for_below.
  pose proof (channels_loop
    (λ c i, pcm16ToFloat (cells !! (i * numChannels + c)%nat))
    numChannels (Z.to_nat (Qceiling frameCount)) b) as Hloops.
  cbv zeta in Hloops. destruct Hloops as (Hnc' & Hfr & Hsr & Hlen & Hget).
  match goal with |- ?b1 = _ => destruct b1 as [nc' fr' sr' cd'] eqn:E end.
  cbn in Hnc', Hfr, Hsr, Hlen, Hget. subst nc' fr' sr'. f_equal.
  apply list_eq. intros c. rewrite Hget, list_lookup_fmap.
  assert (Hcover : (n ≤ Z.to_nat (Qceiling frameCount))%nat).
  { rewrite <- Hfloor.
    assert (Qfloor frameCount ≤ Qceiling frameCount)%Z
      by (rewrite Zle_Qle; apply Qle_floor_ceiling).
    lia. }
  destruct (decide (c < numChannels)%nat) as [Hlt|Hge].
  - rewrite lookup_replicate_2 by done. rewrite lookup_seq_lt by done. cbn.
    f_equal. rewrite for_loop_store_cover by (by rewrite length_replicate).
    by rewrite length_replicate.
  - rewrite lookup_seq_ge by lia. cbn. apply lookup_ge_None.
    rewrite length_replicate. lia.
Qed.
End Decoder.

(** ** Samples as binary64 and binary32 numbers *)

Section Samples.
Import LiveInterface.
Local Open Scope Z_scope.

Lemma digits2_pos_lower (m : positive) : 2 ^ (Z.pos (digits2_pos m) - 1) ≤ Z.pos m.
Proof.
  induction m as [m IH | m IH |]; cbn [digits2_pos]; [| |done].
  - rewrite Pos2Z.inj_succ.
    replace (Z.succ (Z.pos (digits2_pos m)) - 1) with (Z.succ (Z.pos (digits2_pos m) - 1))
      by lia.
    rewrite Z.pow_succ_r by lia. lia.
  - rewrite Pos2Z.inj_succ.
    replace (Z.succ (Z.pos (digits2_pos m)) - 1) with (Z.succ (Z.pos (digits2_pos m) - 1))
      by lia.
    rewrite Z.pow_succ_r by lia. lia.
Qed.

Lemma digits2_pos_iter (a d : positive) :
  digits2_pos (Pos.iter xO a d) = (digits2_pos a + d)%positive.
Proof.
  induction d as [|d IH] using Pos.peano_ind.
  - cbn [Pos.iter digits2_pos]. by rewrite Pos.add_1_r.
  - rewrite Pos.iter_succ. cbn [digits2_pos]. by rewrite IH, Pos.add_succ_r.
Qed.

(** Rounding leaves a number that has the full precision where it is. *)
Lemma binary_round_aux_full (prec emax : Z) (s : bool) (m : positive) (e : Z) :
  Z.pos (digits2_pos m) = prec → 3 - emax - prec ≤ e ≤ emax - prec →
  binary_round_aux prec emax s (Z.pos m) e loc_Exact = S754_finite s m e.
Proof.
  intros Hd He. unfold binary_round_aux, shr_fexp. cbv [Zdigits2]. rewrite Hd.
  replace (fexp prec emax (prec + e) - e) with 0 by (unfold fexp, emin; lia).
  cbv [shr shr_record_of_loc shr_m loc_of_shr_record round_nearest_even Zdigits2].
  rewrite Hd.
  replace (fexp prec emax (prec + e) - e) with 0 by (unfold fexp, emin; lia).
  cbv beta iota.
  destruct (Z.leb_spec e (emax - prec)) as [_|Hgt]; [done | lia].
Qed.

(** An integer of less than 53 bits as a binary64 number. *)
Lemma binary_round_int (s : bool) (a d : positive) :
  Z.pos (digits2_pos a) + Z.pos d = 53 →
  binary_round 53 1024 s a 0 = S754_finite s (Pos.iter xO a d) (Z.neg d).
Proof.
  intros Hk. unfold binary_round.
  replace (fexp 53 1024 (Z.pos (digits2_pos a) + 0)) with (Z.neg d)
    by (unfold fexp, emin; lia).
  change (shl_align a 0 (Z.neg d)) with (Pos.iter xO a d, Z.neg d).
  apply binary_round_aux_full; [|lia].
  rewrite digits2_pos_iter. lia.
Qed.

Lemma Zpos_iter_xO (a d : positive) : Z.pos (Pos.iter xO a d) = Z.pos a * 2 ^ Z.pos d.
Proof.
  induction d as [|d IH] using Pos.peano_ind.
  - cbn [Pos.iter]. lia.
  - rewrite Pos.iter_succ, Pos2Z.inj_xO, IH, Pos2Z.inj_succ, Z.pow_succ_r by lia. lia.
Qed.

(** Such a number is stored into an [Int16Array] cell as the integer it is,
    when that fits. *)
Lemma toInt16_int (s : bool) (a d : positive) :
  -32768 ≤ cond_Zopp s (Z.pos a) ≤ 32767 →
  toInt16 (S754_finite s (Pos.iter xO a d) (Z.neg d)) = cond_Zopp s (Z.pos a).
Proof.
  intros Hrange. unfold toInt16, truncate.
  assert (Hshift : Z.pos (Pos.iter xO a d) ≪ Z.neg d = Z.pos a).
  { rewrite Z.shiftl_div_pow2 by lia. rewrite Zpos_iter_xO.
    change (- Z.neg d) with (Z.pos d). apply Z.div_mul. lia. }
  rewrite Hshift.
  destruct (Z.leb_spec 32768 (cond_Zopp s (Z.pos a) mod 65536)); lia.
Qed.

Lemma of_int_32768 : of_int 32768 = S754_finite false 4503599627370496 (-37).
Proof. reflexivity. Qed.

(** A normal binary64 number times 32768: the exponent moves by 15, the
    mantissa stays, nothing is rounded. *)
Lemma mul_32768_exact (s : bool) (m : positive) (e : Z) :
  digits2_pos m = 53%positive → (-1089 ≤ e ≤ 956)%Z →
  mul (S754_finite s m e) (of_int 32768) = S754_finite s m (e + 15).
Proof.
  intros Hd He. rewrite of_int_32768.
  unfold mul, SFmul. rewrite xorb_false_r, Pos.mul_comm.
  unfold binary_round_aux, shr_fexp.
  assert (Hdig : Zdigits2 (Z.pos (4503599627370496 * m)) = 105%Z).
  { unfold Zdigits2. f_equal.
    transitivity (Pos.iter Pos.succ (digits2_pos m) 52); [reflexivity|].
    rewrite Hd. reflexivity. }
  rewrite Hdig.
  replace (fexp 53 1024 (105 + (e + -37)) - (e + -37))%Z with 52%Z
    by (unfold fexp, emin; lia).
  assert (Hshr : shr (shr_record_of_loc (Z.pos (4503599627370496 * m)) loc_Exact)
                   (e + -37) 52
                 = (Build_shr_record (Z.pos m) false false, (e + -37 + 52)%Z))
    by reflexivity.
  rewrite Hshr. cbv beta iota zeta.
  cbv [shr_m loc_of_shr_record round_nearest_even Zdigits2]. rewrite Hd.
  replace (fexp 53 1024 (53 + (e + -37 + 52)) - (e + -37 + 52))%Z with 0%Z
    by (unfold fexp, emin; lia).
  cbv [shr shr_record_of_loc shr_m].
  destruct (Z.leb_spec (e + -37 + 52) (1024 - 53)) as [_|Hgt]; [|lia].
  f_equal. lia.
Qed.

(** A normal binary64 number divided by 32768, likewise. *)
Lemma div_32768_exact (s : bool) (m : positive) (e : Z) :
  digits2_pos m = 53%positive → (-1058 ≤ e ≤ 971)%Z →
  div (S754_finite s m e) (of_int 32768) = S754_finite s m (e - 15).
Proof.
  intros Hd He. rewrite of_int_32768.
  unfold div, SFdiv. rewrite xorb_false_r.
  unfold SFdiv_core_binary. cbv [Zdigits2]. rewrite Hd.
  change (Z.pos (digits2_pos 4503599627370496)) with 53%Z.
  replace (Z.min (fexp 53 1024 (53 + e - (53 + -37))) (e - -37)) with (e - 16)%Z
    by (unfold fexp, emin; lia).
  replace (e - -37 - (e - 16))%Z with 53%Z by lia.
  cbv beta iota zeta.
  assert (Hq : Z.div_eucl (Z.pos m ≪ 53) 4503599627370496 = (Z.pos m~0, 0%Z)).
  { replace (Z.pos m ≪ 53)%Z with (Z.pos m~0 * 4503599627370496)%Z
      by (rewrite Z.shiftl_mul_pow2 by lia;
          change (2 ^ 53)%Z with 9007199254740992%Z; lia).
    pose proof (Z.div_mul (Z.pos m~0) 4503599627370496 ltac:(lia)) as Hdiv.
    pose proof (Z.mod_mul (Z.pos m~0) 4503599627370496 ltac:(lia)) as Hmod.
    unfold Z.div in Hdiv. unfold Z.modulo in Hmod.
    destruct (Z.div_eucl (Z.pos m~0 * 4503599627370496) 4503599627370496) as [q r].
    by subst. }
  rewrite Hq. cbv beta iota zeta.
  change (new_location 4503599627370496 0) with loc_Exact.
  unfold binary_round_aux, shr_fexp.
  replace (Zdigits2 (Z.pos m~0)) with 54%Z
    by (unfold Zdigits2; cbv [digits2_pos]; fold digits2_pos; rewrite Hd; reflexivity).
  replace (fexp 53 1024 (54 + (e - 16)) - (e - 16))%Z with 1%Z
    by (unfold fexp, emin; lia).
  assert (Hshr : shr (shr_record_of_loc (Z.pos m~0) loc_Exact) (e - 16) 1
                 = (Build_shr_record (Z.pos m) false false, (e - 16 + 1)%Z))
    by reflexivity.
  rewrite Hshr. cbv beta iota zeta.
  cbv [shr_m loc_of_shr_record round_nearest_even Zdigits2]. rewrite Hd.
  replace (fexp 53 1024 (53 + (e - 16 + 1)) - (e - 16 + 1))%Z with 0%Z
    by (unfold fexp, emin; lia).
  cbv [shr shr_record_of_loc shr_m].
  destruct (Z.leb_spec (e - 16 + 1) (1024 - 53)) as [_|Hgt]; [|lia].
  f_equal. lia.
Qed.

(** A binary64 number whose mantissa ends with 29 zero bits is a binary32
    value: a [Float32Array] cell keeps it as it is. *)
Lemma fround_exact (s : bool) (b : positive) (e : Z) :
  Z.pos (digits2_pos b) = 24 → -178 ≤ e ≤ 75 →
  fround (S754_finite s (Pos.iter xO b 29) e) = S754_finite s (Pos.iter xO b 29) e.
Proof.
  intros Hb He.
  assert (Hm : Z.pos (digits2_pos (Pos.iter xO b 29)) = 53)
    by (rewrite digits2_pos_iter; lia).
  assert (H32 : binary_round 24 128 s (Pos.iter xO b 29) e = S754_finite s b (e + 29)).
  { unfold binary_round. rewrite Hm.
    replace (fexp 24 128 (53 + e)) with (e + 29) by (unfold fexp, emin; lia).
    unfold shl_align. replace (e + 29 - e) with 29 by lia. cbv iota.
    unfold binary_round_aux, shr_fexp. cbv [Zdigits2]. rewrite Hm.
    replace (fexp 24 128 (53 + e) - e) with 29 by (unfold fexp, emin; lia).
    assert (Hshr : shr (shr_record_of_loc (Z.pos (Pos.iter xO b 29)) loc_Exact) e 29
                   = (Build_shr_record (Z.pos b) false false, e + 29))
      by reflexivity.
    rewrite Hshr. cbv beta iota zeta.
    cbv [shr_m loc_of_shr_record round_nearest_even Zdigits2]. rewrite Hb.
    replace (fexp 24 128 (24 + (e + 29)) - (e + 29)) with 0
      by (unfold fexp, emin; lia).
    cbv [shr shr_record_of_loc shr_m].
    destruct (Z.leb_spec (e + 29) (128 - 24)) as [_|Hgt]; [done | lia]. }
  unfold fround. rewrite H32. unfold binary_round. rewrite Hb.
  replace (fexp 53 1024 (24 + (e + 29))) with e by (unfold fexp, emin; lia).
  unfold shl_align. replace (e - (e + 29)) with (Z.neg 29) by lia. cbv iota.
  apply binary_round_aux_full; [exact Hm | lia].
Qed.

(** The rational it stands for, with the exponent moved by 15. *)
Lemma value_int_scaled (s : bool) (a d : positive) :
  ∃ q, value (S754_finite s (Pos.iter xO a d) (Z.neg d - 15)) = Some q
       ∧ (q == cond_Zopp s (Z.pos a) # 32768)%Q.
Proof.
  eexists. split; [reflexivity|].
  assert (Hm : cond_Zopp s (Z.pos (Pos.iter xO a d)) = cond_Zopp s (Z.pos a) * 2 ^ Z.pos d)
    by (rewrite Zpos_iter_xO; destruct s; cbn [cond_Zopp]; lia).
  rewrite Hm, inject_Z_mult, Zpower_Qpower by lia.
  replace (Z.neg d - 15) with (- (Z.pos d + 15)) by lia.
  rewrite Qpower_opp, Qpower_plus by done.
  rewrite (Qmake_Qdiv (cond_Zopp s (Z.pos a)) 32768).
  change (inject_Z 2) with 2%Q. change (inject_Z (Z.pos 32768)) with (2 ^ 15)%Q.
  assert (Hpow : ¬ (2 ^ Z.pos d == 0)%Q).
  { apply Qpower_not_0. done. }
  field. exact Hpow.
Qed.

(** The two conversions on a 16-bit value given as a sign and a magnitude. *)
Lemma pcm16_sample_signed (s : bool) (a : positive) :
  -32768 ≤ cond_Zopp s (Z.pos a) ≤ 32767 →
  let v := cond_Zopp s (Z.pos a) in
  let x := div (binary_round 53 1024 s a 0) (of_int 32768) in
  fround x = x
  ∧ (∃ q, value x = Some q ∧ q == v # 32768 ∧ -1 <= q ∧ q <= 1)%Q
  ∧ toInt16 (mul x (of_int 32768)) = v.
Proof.
  intros Hv. cbv zeta.
  (* [a] has 16 bits at most *)
  assert (Ha : Z.pos a ≤ 32768) by (destruct s; cbn [cond_Zopp] in Hv; lia).
  pose proof (digits2_pos_lower a) as Hk.
  assert (Hk16 : Z.pos (digits2_pos a) ≤ 16).
  { destruct (Z.le_gt_cases (Z.pos (digits2_pos a)) 16) as [|Hgt]; [done|].
    assert (2 ^ 16 ≤ 2 ^ (Z.pos (digits2_pos a) - 1)) by (apply Z.pow_le_mono_r; lia).
    change (2 ^ 16) with 65536 in *. lia. }
  (* its mantissa is [a] followed by [29 + d'] zero bits *)
  set (d' := Z.to_pos (24 - Z.pos (digits2_pos a))).
  set (b := Pos.iter xO a d').
  assert (Hb : Z.pos (digits2_pos b) = 24).
  { unfold b. rewrite digits2_pos_iter. unfold d'. lia. }
  assert (Hab : Pos.iter xO a (29 + d') = Pos.iter xO b 29)
    by (unfold b; apply Pos.iter_add).
  assert (Hof : binary_round 53 1024 s a 0
                = S754_finite s (Pos.iter xO b 29) (Z.neg (29 + d'))).
  { rewrite <- Hab. apply binary_round_int. unfold d'. lia. }
  assert (Hm : digits2_pos (Pos.iter xO b 29) = 53%positive)
    by (rewrite digits2_pos_iter; lia).
  assert (He : -52 ≤ Z.neg (29 + d') ≤ -37) by (unfold d'; lia).
  rewrite Hof, div_32768_exact by (done || lia).
  rewrite fround_exact by (done || lia).
  split_and!; [done | |].
  - rewrite <- Hab.
    destruct (value_int_scaled s a (29 + d')) as (q & Hq & Hval).
    exists q.
    split_and!; [done | done | |]; rewrite Hval; unfold Qle; cbn [Qnum Qden]; lia.
  - rewrite mul_32768_exact by (done || lia).
    replace (Z.neg (29 + d') - 15 + 15) with (Z.neg (29 + d')) by lia.
    rewrite <- Hab. by apply toInt16_int.
Qed.

(** The two conversions on one 16-bit value: the quotient is a binary32
    value, it stands for [v / 32768], which lies between -1 and 1, and the
    capture conversion takes it back to [v]. *)
Lemma pcm16_sample (v : Z) :
  -32768 ≤ v ≤ 32767 →
  let x := pcm16ToFloat (Some v) in
  fround x = x
  ∧ (∃ q, value x = Some q ∧ q == v # 32768 ∧ -1 <= q ∧ q <= 1)%Q
  ∧ floatSampleToPcm16 x = v.
Proof.
  intros Hv. destruct v as [|a|a].
  - split_and!; [done | | done]. exists 0%Q. split_and!; done.
  - apply (pcm16_sample_signed false a). exact Hv.
  - apply (pcm16_sample_signed true a). exact Hv.
Qed.
End Samples.

(** ** The decoder and the capture conversion on buffers *)

Section Buffers.
Import LiveInterface WebAudio.

(** The sample that the decoder stores for channel [c] in frame [i]. *)
Lemma decodeAudioData_sample (data : list byte) (sampleRate : Q) (numChannels c i : nat) :
  Nat.even (length data) = true →
  (0 < sampleRate)%Q →
  (c < numChannels)%nat →
  (i < length (int16_cells data) / numChannels)%nat →
  ∃ buf v,
    decodeAudioData data sampleRate numChannels = Some buf
    ∧ numberOfChannels buf = numChannels
    ∧ frames buf = (length (int16_cells data) / numChannels)%nat
    ∧ int16_cells data !! (i * numChannels + c)%nat = Some v
    ∧ (-32768 ≤ v ≤ 32767)%Z
    ∧ (channelData buf !! c ≫= (.!! i)) = Some (fround (pcm16ToFloat (Some v))).
Proof.
  intros Heven Hsr Hc Hi.
  set (cells := int16_cells data) in *.
  set (n := (length cells / numChannels)%nat) in *.
  assert (Hidx : (i * numChannels + c < length cells)%nat).
  { pose proof (Nat.Div0.mul_div_le (length cells) numChannels). fold n in H. nia. }
  destruct (lookup_lt_is_Some_2 cells _ Hidx) as [v Hv].
  assert (Hrange : (-32768 ≤ v ≤ 32767)%Z).
  { pose proof (int16_cells_range data) as Hall. rewrite Forall_lookup in Hall.
    exact (Hall _ _ Hv). }
  rewrite decodeAudioData_eq, Heven. cbv zeta. fold cells. fold n.
  destruct (Nat.eqb_spec numChannels 0) as [->|_]; [lia|].
  destruct (Nat.eqb_spec n 0) as [E|_]; [lia|].
  destruct (Qle_bool sampleRate 0) eqn:Ele.
  { apply Qle_bool_iff in Ele. by apply Qle_not_lt in Ele. }
  cbn [orb]. eexists _, v. split_and!; [reflexivity | (done || lia).. |].
  unfold channelData. rewrite list_lookup_fmap, lookup_seq_lt by done.
  cbn [fmap option_fmap option_map mbind option_bind].
  rewrite list_lookup_fmap, lookup_seq_lt by done. cbn. by rewrite Hv.
Qed.

(** C6. For every buffer of bytes whose length fits interleaved signed
    16-bit samples (an even number of bytes, a whole number of frames),
    [decodeAudioData] returns a buffer of [numChannels] channels in which the
    sample of channel [c] in frame [i] is the quotient by 32768 of the 16-bit
    value [v] at rank [i * numChannels + c]: it stands for the rational
    [v / 32768], and lies between -1 and 1. *)
Theorem decodeAudioData_normalizes (data : list byte) (sampleRate : Q)
    (numChannels c i : nat)
    (Heven : Nat.even (length data) = true)
    (Hframes : (length (int16_cells data) mod numChannels = 0)%nat)
    (Hrate : (0 < sampleRate)%Q)
    (Hc : (c < numChannels)%nat)
    (Hi : (i < length (int16_cells data) / numChannels)%nat) :
  ∃ buf v x q,
    decodeAudioData data sampleRate numChannels = Some buf
    ∧ numberOfChannels buf = numChannels
    ∧ (frames buf * numChannels = length (int16_cells data))%nat
    ∧ int16_cells data !! (i * numChannels + c)%nat = Some v
    ∧ (channelData buf !! c ≫= (.!! i)) = Some x
    ∧ x = div (of_int v) (of_int 32768)
    ∧ value x = Some q
    ∧ (q == v # 32768 ∧ -1 <= q ∧ q <= 1)%Q.
Proof.
  destruct (decodeAudioData_sample data sampleRate numChannels c i Heven Hrate Hc Hi)
    as (buf & v & Hbuf & Hnc & Hfr & Hv & Hrange & Hx).
  destruct (pcm16_sample v Hrange) as (Hround & (q & Hq & Heq & Hlo & Hhi) & _).
  exists buf, v, (pcm16ToFloat (Some v)), q. rewrite Hround in Hx.
  split_and!; [done | done | | done..].
  rewrite Hfr. pose proof (Nat.div_mod (length (int16_cells data)) numChannels).
  rewrite Hframes in H. lia.
Qed.

Lemma decodeAudioData_normalizes_witness :
  ∃ buf v x q,
    decodeAudioData [x01; x00; xff; x7f; x00; x80; xfe; xff] 24000 2 = Some buf
    ∧ numberOfChannels buf = 2%nat
    ∧ (frames buf * 2 = length (int16_cells [x01; x00; xff; x7f; x00; x80; xfe; xff]))%nat
    ∧ int16_cells [x01; x00; xff; x7f; x00; x80; xfe; xff] !! (1 * 2 + 0)%nat = Some v
    ∧ (channelData buf !! 0%nat ≫= (.!! 1%nat)) = Some x
    ∧ x = div (of_int v) (of_int 32768)
    ∧ value x = Some q
    ∧ (q == v # 32768 ∧ -1 <= q ∧ q <= 1)%Q.
Proof.
  apply (decodeAudioData_normalizes [x01; x00; xff; x7f; x00; x80; xfe; xff] 24000 2 0 1).
  - reflexivity.
  - reflexivity.
  - reflexivity.
  - vm_compute. lia.
  - vm_compute. lia.
Defined.

(** C4. For every buffer of bytes that fits interleaved 16-bit samples,
    [decodeAudioData] returns a buffer, and [floatSampleToPcm16] of the
    sample it holds for channel [c] in frame [i] is within 1 of the 16-bit
    value [v] at rank [i * numChannels + c]. *)
Theorem pcm16_float_roundtrip (data : list byte) (sampleRate : Q)
    (numChannels c i : nat)
    (Heven : Nat.even (length data) = true)
    (Hframes : (length (int16_cells data) mod numChannels = 0)%nat)
    (Hrate : (0 < sampleRate)%Q)
    (Hc : (c < numChannels)%nat)
    (Hi : (i < length (int16_cells data) / numChannels)%nat) :
  ∃ buf v x,
    decodeAudioData data sampleRate numChannels = Some buf
    ∧ int16_cells data !! (i * numChannels + c)%nat = Some v
    ∧ (-32768 ≤ v ≤ 32767)%Z
    ∧ (channelData buf !! c ≫= (.!! i)) = Some x
    ∧ (Z.abs (floatSampleToPcm16 x - v) ≤ 1)%Z.
Proof.
  destruct (decodeAudioData_sample data sampleRate numChannels c i Heven Hrate Hc Hi)
    as (buf & v & Hbuf & Hnc & Hfr & Hv & Hrange & Hx).
  destruct (pcm16_sample v Hrange) as (Hround & _ & Hback).
  exists buf, v, (pcm16ToFloat (Some v)). rewrite Hround in Hx.
  split_and!; [done | done | lia | lia | done | rewrite Hback; lia].
Qed.

Lemma pcm16_float_roundtrip_witness :
  ∃ buf v x,
    decodeAudioData [x01; x00; xff; x7f; x00; x80; xfe; xff] 24000 1 = Some buf
    ∧ int16_cells [x01; x00; xff; x7f; x00; x80; xfe; xff] !! (2 * 1 + 0)%nat = Some v
    ∧ (-32768 ≤ v ≤ 32767)%Z
    ∧ (channelData buf !! 0%nat ≫= (.!! 2%nat)) = Some x
    ∧ (Z.abs (floatSampleToPcm16 x - v) ≤ 1)%Z.
Proof.
  apply (pcm16_float_roundtrip [x01; x00; xff; x7f; x00; x80; xfe; xff] 24000 1 0 2).
  - reflexivity.
  - reflexivity.
  - reflexivity.
  - vm_compute. lia.
  - vm_compute. lia.
Defined.

(** C10. The three copies of [decodeAudioData], of the live conversation
    component, of the audio overview component and of the studio hub file,
    agree on every buffer of bytes, sample rate and number of channels: they
    throw on the same inputs and return the same buffer, with the same
    array of samples for each channel, on the others. *)
Theorem decodeAudioData_copies_agree (data : list byte) (sampleRate : Q)
    (numChannels : nat) :
  AudioOverview.decodeAudioData data sampleRate numChannels
    = LiveInterface.decodeAudioData data sampleRate numChannels
  ∧ StudioHub.decodeAudioData data sampleRate numChannels
    = LiveInterface.decodeAudioData data sampleRate numChannels
  ∧ (channelData <$> AudioOverview.decodeAudioData data sampleRate numChannels)
    = (channelData <$> StudioHub.decodeAudioData data sampleRate numChannels).
Proof.
  assert (Hao : AudioOverview.decodeAudioData data sampleRate numChannels
                = LiveInterface.decodeAudioData data sampleRate numChannels).
  { unfold AudioOverview.decodeAudioData, LiveInterface.decodeAudioData.
    destruct (Int16Array_of_buffer data) as [dataInt16|]; [|done]. cbn.
    destruct (createBuffer _ _ _) as [b|]; [|done]. cbn. reflexivity. }
  assert (Hsh : StudioHub.decodeAudioData data sampleRate numChannels
                = LiveInterface.decodeAudioData data sampleRate numChannels).
  { unfold StudioHub.decodeAudioData, LiveInterface.decodeAudioData.
    destruct (Int16Array_of_buffer data) as [dataInt16|]; [|done]. cbn.
    destruct (createBuffer _ _ _) as [b|]; [|done]. cbn. reflexivity. }
  split_and!; [done | done | by rewrite Hao, Hsh].
Qed.

(** The copies of the transport decoder agree as well. *)
Lemma decodeBase64_copies_agree (base64 : list N) :
  AudioOverview.decodeBase64 base64 = LiveInterface.decode base64
  ∧ StudioHub.decodeBase64 base64 = LiveInterface.decode base64.
Proof. split; reflexivity. Qed.
End Buffers.

(** ** The capture conversion *)

Section Capture.
Import LiveInterface.
Local Open Scope Z_scope.


Lemma toInt16_finite (s : bool) (m : positive) (e : Z) :
  let n := truncate s m e in
  let r := toInt16 (S754_finite s m e) in
  -32768 ≤ r ≤ 32767
  ∧ r = n - 65536 * ((n + 32768) / 65536).
Proof.
  cbv zeta. unfold toInt16. set (n := truncate s m e).
  destruct (Z.leb_spec 32768 (n mod 65536)); lia.
Qed.



(** The sample 1.5 gives 49152 - 65536, not 32767. *)
Example floatSampleToPcm16_overflow :
  floatSampleToPcm16 (div (of_int 3) (of_int 2)) = -16384.
Proof. reflexivity. Qed.
End Capture.

(** ** The capture path on a decoded segment *)

Section CaptureOfDecoded.
Import LiveInterface WebAudio.

Lemma toUint8_to_N (b : byte) : toUint8 (Some (Byte.to_N b)) = b.
Proof.
  unfold toUint8. pose proof (Byte.to_N_bounded b).
  rewrite N.mod_small by lia. by rewrite Byte.of_to_N.
Qed.

(** The bytes of the cells of a buffer are the bytes of the buffer. *)
Lemma Uint8Array_of_int16_cells (data : list byte) :
  Nat.even (length data) = true → Uint8Array_of_buffer (int16_cells data) = data.
Proof.
  assert (Hall : ∀ l : list byte,
    (Nat.even (length l) = true → Uint8Array_of_buffer (int16_cells l) = l)
    ∧ ∀ a, Nat.even (length (a :: l)) = true →
           Uint8Array_of_buffer (int16_cells (a :: l)) = a :: l).
  { induction l as [|x l [IHa IHb]]; [split; [done | intros a; discriminate]|].
    split; [apply IHb|]. intros a Heven.
    cbn [int16_cells Uint8Array_of_buffer flat_map app].
    change (flat_map _ (int16_cells l)) with (Uint8Array_of_buffer (int16_cells l)).
    rewrite IHa by exact Heven.
    pose proof (Byte.to_N_bounded a). pose proof (Byte.to_N_bounded x).
    set (u := (Z.of_N (Byte.to_N a) + 256 * Z.of_N (Byte.to_N x))%Z).
    set (v := (if (32768 <=? u)%Z then u - 65536 else u)%Z).
    assert (Hlo : (v mod 256 = Z.of_N (Byte.to_N a))%Z)
      by (unfold v; destruct (Z.leb_spec 32768 u); unfold u in *; lia).
    assert (Hhi : ((v / 256) mod 256 = Z.of_N (Byte.to_N x))%Z)
      by (unfold v; destruct (Z.leb_spec 32768 u); unfold u in *; lia).
    by rewrite Hlo, Hhi, !N2Z.id, !toUint8_to_N. }
  apply Hall.
Qed.

(** X7. A mono segment decoded from [data] and taken as the input of the
    capture callback gives the packet of [data]: the two conversions undo
    each other on whole buffers. *)
Lemma capture_packet_of_decoded (data : list byte) (sampleRate : Q) :
  Nat.even (length data) = true → (2 ≤ length data)%nat → (0 < sampleRate)%Q →
  ∃ buf samples,
    decodeAudioData data sampleRate 1 = Some buf
    ∧ channelData buf = [samples]
    ∧ capture_packet samples =
        (text ← encode data; Some (text, "audio/pcm;rate=16000"%string)).
Proof.
  intros Heven Hlen Hrate.
  rewrite decodeAudioData_eq, Heven. cbv zeta. rewrite Nat.div_1_r.
  pose proof (int16_cells_length data) as Hcells.
  set (cells := int16_cells data) in *.
  assert (Hn : (1 ≤ length cells)%nat).
  { rewrite Hcells. apply Nat.div_le_lower_bound; lia. }
  destruct (Nat.eqb_spec (length cells) 0) as [E|_]; [lia|].
  destruct (Qle_bool sampleRate 0) eqn:Ele.
  { apply Qle_bool_iff in Ele. by apply Qle_not_lt in Ele. }
  cbn [Nat.eqb orb]. eexists _, _. split_and!; [reflexivity | reflexivity |].
  unfold capture_packet. cbv zeta. rewrite length_map, length_seq.
  rewrite for_loop_store_all by apply length_replicate.
  replace (map _ (seq 0 (length cells))) with cells.
  { unfold cells. by rewrite Uint8Array_of_int16_cells. }
  apply list_eq. intros j. rewrite list_lookup_fmap.
  destruct (decide (j < length cells)%nat) as [Hlt|Hge].
  - rewrite lookup_seq_lt by done. cbn [fmap option_fmap option_map].
    rewrite list_lookup_fmap, lookup_seq_lt by done. cbn [fmap option_fmap option_map default].
    replace ((0 + (0 + j)) * 1 + 0)%nat with j by lia.
    destruct (lookup_lt_is_Some_2 cells j Hlt) as [v Hv]. rewrite Hv. f_equal.
    assert (Hrange : (-32768 ≤ v ≤ 32767)%Z).
    { pose proof (int16_cells_range data) as Hall. rewrite Forall_lookup in Hall.
      exact (Hall _ _ Hv). }
    unfold id. destruct (pcm16_sample v Hrange) as (-> & _ & ->). done.
  - rewrite lookup_seq_ge by lia. by apply lookup_ge_None_2; lia.
Qed.

Lemma capture_packet_of_decoded_witness :
  ∃ buf samples,
    decodeAudioData [x01; x00; xff; x7f; x00; x80] 24000 1 = Some buf
    ∧ channelData buf = [samples]
    ∧ capture_packet samples =
        (text ← encode [x01; x00; xff; x7f; x00; x80];
         Some (text, "audio/pcm;rate=16000"%string)).
Proof.
  apply (capture_packet_of_decoded [x01; x00; xff; x7f; x00; x80] 24000).
  - reflexivity.
  - cbn [length]. lia.
  - reflexivity.
Defined.
End CaptureOfDecoded.

(** ** The playback scheduler *)

Section Scheduler.
Import LiveInterface WebAudio.
Local Open Scope Q_scope.

Lemma enqueue_nodes (now : Q) (b : AudioBuffer) (st : State) :
  sourceNodes (enqueue now b st) =
  sourceNodes st ++
    [{| buffer := b; startTime := Qmax (nextStartTimeRef st) now; stopped := false |}].
Proof. reflexivity. Qed.

Lemma enqueue_cursor (now : Q) (b : AudioBuffer) (st : State) :
  nextStartTimeRef (enqueue now b st) = Qmax (nextStartTimeRef st) now + duration b.
Proof. reflexivity. Qed.

Lemma enqueue_all_snoc (segments : list (Q * AudioBuffer)) (seg : Q * AudioBuffer)
    (st : State) :
  enqueue_all (segments ++ [seg]) st = enqueue seg.1 seg.2 (enqueue_all segments st).
Proof. unfold enqueue_all. by rewrite foldl_app. Qed.

Lemma back_to_back_nil (cursor : Q) : back_to_back [] cursor.
Proof. split; intros i ?; intros; by rewrite lookup_nil in *. Qed.

(** One more enqueue keeps the nodes back to back. *)
Lemma back_to_back_snoc (nodes : list SourceNode) (cursor now : Q) (b : AudioBuffer) :
  0 <= duration b →
  back_to_back nodes cursor →
  back_to_back
    (nodes ++ [{| buffer := b; startTime := Qmax cursor now; stopped := false |}])
    (Qmax cursor now + duration b).
Proof.
  intros Hdur [Hpairs Hends].
  assert (Hmax : cursor <= Qmax cursor now) by apply Q.le_max_l.
  assert (Hgrow : Qmax cursor now <= Qmax cursor now + duration b).
  { rewrite <- (Qplus_0_r (Qmax cursor now)) at 1.
    apply Qplus_le_r. exact Hdur. }
  split.
  - intros i n1 n2 H1 H2.
    destruct (decide (S i < length nodes)%nat) as [Hin|Hout].
    + rewrite lookup_app_l in H1 by lia. rewrite lookup_app_l in H2 by lia.
      by apply (Hpairs i).
    + assert (Hi : S i = length nodes).
      { apply lookup_lt_Some in H2. rewrite length_app in H2. cbn in H2. lia. }
      rewrite lookup_app_l in H1 by lia.
      rewrite Hi, lookup_app_r, Nat.sub_diag in H2 by lia.
      cbn in H2. injection H2 as <-. cbn [startTime].
      destruct (Hends i n1 H1) as [Hs He].
      split; eapply Qle_trans; eauto.
  - intros i n Hn.
    destruct (decide (i < length nodes)%nat) as [Hin|Hout].
    + rewrite lookup_app_l in Hn by lia.
      destruct (Hends i n Hn) as [Hs He].
      split; (eapply Qle_trans; [eassumption|]); eapply Qle_trans; eauto.
    + assert (Hi : i = length nodes).
      { apply lookup_lt_Some in Hn. rewrite length_app in Hn. cbn in Hn. lia. }
      rewrite Hi, lookup_app_r, Nat.sub_diag in Hn by lia.
      cbn in Hn. injection Hn as <-. cbn [startTime buffer].
      split; [exact Hgrow | apply Qle_refl].
Qed.

(** A run of enqueues appends one node for each segment, back to back. *)
Lemma enqueue_all_back_to_back (segments : list (Q * AudioBuffer)) (st : State) :
  Forall (λ seg, 0 <= duration seg.2) segments →
  ∃ nodes,
    sourceNodes (enqueue_all segments st) = sourceNodes st ++ nodes
    ∧ Forall2 (λ seg n, buffer n = seg.2 ∧ seg.1 <= startTime n) segments nodes
    ∧ back_to_back nodes (nextStartTimeRef (enqueue_all segments st)).
Proof.
  induction segments as [|seg segments IH] using rev_ind; intros Hdur.
  - exists []. split_and!; [by rewrite app_nil_r | constructor | apply back_to_back_nil].
  - apply Forall_app in Hdur as [Hdur Hseg]. apply Forall_cons in Hseg as [Hseg _].
    destruct (IH Hdur) as (nodes & Hnodes & Hsegs & Hbb).
    rewrite enqueue_all_snoc, enqueue_nodes, enqueue_cursor, Hnodes.
    eexists (nodes ++ [_]). split_and!.
    + by rewrite app_assoc.
    + apply Forall2_app; [exact Hsegs|].
      constructor; [|constructor]. cbn. split; [reflexivity | apply Q.le_max_r].
    + by apply back_to_back_snoc.
Qed.

(** ** Messages that carry a segment *)

Lemma audio_payload_parts (message : LiveServerMessage) (base64 : list N) :
  audio_payload message = Some base64 → parts_missing message = false.
Proof.
  unfold audio_payload, parts_missing.
  destruct (modelTurn message) as [[[ps|]]|]; done.
Qed.

(** The segments that the handler decodes last for some time. *)
Lemma decode_segment_duration (base64 : list N) (seg : AudioBuffer) :
  decode_segment base64 = Some seg → 0 < duration seg.
Proof.
  unfold decode_segment. destruct (decode base64) as [bytes|]; [|done].
  cbn [mbind option_bind]. rewrite decodeAudioData_eq.
  destruct (Nat.even (length bytes)); [|done]. cbv zeta. rewrite Nat.div_1_r.
  destruct (Nat.eqb_spec (length (int16_cells bytes)) 0) as [|Hn]; [done|].
  cbn [Nat.eqb orb]. change (Qle_bool 24000 0) with false. cbv iota.
  intros [= <-]. unfold duration. cbn [frames sampleRate].
  apply Qlt_shift_div_l; [reflexivity|]. rewrite Qmult_0_l.
  change 0 with (inject_Z 0). rewrite <- Zlt_Qlt. lia.
Qed.

(** The handler of a message that carries a segment enqueues the segment. *)
Lemma onmessage_carries (now : Q) (message : LiveServerMessage) (seg : AudioBuffer)
    (st : State) :
  carries message seg → onmessage now message st = enqueue now seg st.
Proof.
  intros (base64 & Hpayload & Hseg & Hplain). unfold onmessage.
  rewrite (audio_payload_parts message base64 Hpayload), Hpayload. cbv zeta.
  rewrite Hseg. unfold on_interrupted. by rewrite Hplain.
Qed.

Lemma run_snoc (events : list Event) (ev : Event) (st : State) :
  run (events ++ [ev]) st = handle ev (run events st).
Proof. unfold run. by rewrite foldl_app. Qed.

(** The arrival of messages that carry segments is the run of enqueues of
    these segments. *)
Lemma run_arrivals (arrivals : list (Q * LiveServerMessage * AudioBuffer)) (st : State) :
  Forall (λ a, carries a.1.2 a.2) arrivals →
  run (arrival_events arrivals) st = enqueue_all (arrival_segments arrivals) st.
Proof.
  induction arrivals as [|a arrivals IH] using rev_ind; intros Hall; [done|].
  apply Forall_app in Hall as [Hall Ha]. apply Forall_cons in Ha as [Ha _].
  unfold arrival_events, arrival_segments. rewrite !map_app. cbn [map].
  rewrite run_snoc, enqueue_all_snoc. cbn [handle fst snd].
  fold (arrival_events arrivals). fold (arrival_segments arrivals).
  rewrite IH by done. by apply onmessage_carries.
Qed.

Lemma encode_groups_cons (l : list N) :
  l ≠ [] → ∃ c rest, Base64.encode_groups l = c :: rest.
Proof.
  destruct l as [|a [|b [|c l]]]; [done | | |]; intros _; cbn [Base64.encode_groups]; eauto.
Qed.

Lemma int16_cells_silence (n : nat) :
  int16_cells (replicate (2 * n) x00) = replicate n 0%Z.
Proof.
  induction n as [|n IH]; [done|].
  replace (2 * S n)%nat with (S (S (2 * n))) by lia.
  cbn [replicate int16_cells]. rewrite IH. reflexivity.
Qed.

(** The payload of [n] frames of silence decodes to the segment of these
    frames, when there is one at least. *)
Lemma silence_carries (n : nat) :
  (1 ≤ n)%nat → carries (audio_message (silence n)) (silent_segment n).
Proof.
  intros Hn.
  assert (Hbytes : replicate (2 * n) x00 ≠ []) by (destruct n; [lia | done]).
  destruct (encode_groups_cons (map Byte.to_N (replicate (2 * n) x00))) as (c & rest & Hc).
  { by destruct (replicate (2 * n) x00). }
  exists (silence n). split_and!; [| |reflexivity].
  - unfold audio_message, audio_payload, silence. cbn [modelTurn parts]. by rewrite Hc.
  - unfold decode_segment, silence. rewrite decode_encode_groups.
    cbn [mbind option_bind]. rewrite decodeAudioData_eq, length_replicate.
    replace (Nat.even (2 * n)) with true
      by (symmetry; apply Nat.even_spec; by exists n).
    cbv zeta. rewrite int16_cells_silence, length_replicate, Nat.div_1_r.
    destruct (Nat.eqb_spec n 0) as [|_]; [lia|].
    cbn [Nat.eqb orb]. change (Qle_bool 24000 0) with false. cbv iota.
    unfold silent_segment. do 2 f_equal. cbn [seq map]. f_equal.
    apply list_eq. intros j. rewrite list_lookup_fmap.
    destruct (decide (j < n)%nat) as [Hlt|Hge].
    + rewrite lookup_seq_lt, lookup_replicate_2 by done. cbn.
      rewrite lookup_replicate_2 by lia. reflexivity.
    + rewrite lookup_seq_ge by lia. symmetry. apply lookup_replicate_None. lia.
Qed.

(** C1. The handler of a message that carries a segment enqueues it: it
    starts the segment at the larger of the cursor and the audio clock, and
    moves the cursor to that start plus the segment's duration. From a fresh
    component, a message with a segment of 2 s received when the clock reads
    0 puts the cursor at 2; a message with a segment of 1 s received when
    the clock reads 0.5 then starts its segment at 2, not at 0.5, and puts
    the cursor at 3. Over any run of messages that carry segments, received
    with the clock readings of their arrival, one node is created for each
    segment, in order, and starts no earlier than the clock reading of its
    arrival; the start times never decrease, and each node starts when the
    one before it has ended, or later. *)
Theorem enqueue_back_to_back (st : State) (now : Q)
    (message mA mB : LiveServerMessage) (b A B : AudioBuffer)
    (arrivals : list (Q * LiveServerMessage * AudioBuffer))
    (Hb : carries message b)
    (HmA : carries mA A)
    (HmB : carries mB B)
    (HA : duration A == 2)
    (HB : duration B == 1)
    (Harrivals : Forall (λ a, carries a.1.2 a.2) arrivals) :
  (onmessage now message st = enqueue now b st
   ∧ sourceNodes (onmessage now message st) =
       sourceNodes st ++
         [{| buffer := b; startTime := Qmax (nextStartTimeRef st) now; stopped := false |}]
   ∧ nextStartTimeRef (onmessage now message st)
     = Qmax (nextStartTimeRef st) now + duration b
   ∧ sourcesRef (onmessage now message st) = {[length (sourceNodes st)]} ∪ sourcesRef st)
  ∧ (let st1 := run [Message 0 mA] initial in
     let st2 := run [Message 0 mA; Message (1 # 2) mB] initial in
     nextStartTimeRef st1 == 2
     ∧ (∃ nodeB, sourceNodes st2 !! 1%nat = Some nodeB
                 ∧ buffer nodeB = B
                 ∧ startTime nodeB == 2
                 ∧ ¬ startTime nodeB == 1 # 2)
     ∧ nextStartTimeRef st2 == 3)
  ∧ (run (arrival_events arrivals) st = enqueue_all (arrival_segments arrivals) st
     ∧ ∃ nodes,
         sourceNodes (run (arrival_events arrivals) st) = sourceNodes st ++ nodes
         ∧ Forall2 (λ a n, buffer n = a.2 ∧ a.1.1 <= startTime n) arrivals nodes
         ∧ ∀ i n1 n2, nodes !! i = Some n1 → nodes !! S i = Some n2 →
             startTime n1 <= startTime n2
             ∧ startTime n1 + duration (buffer n1) <= startTime n2).
Proof.
  split_and!.
  - by apply onmessage_carries.
  - by rewrite (onmessage_carries now message b st Hb).
  - by rewrite (onmessage_carries now message b st Hb).
  - by rewrite (onmessage_carries now message b st Hb).
  - cbv zeta. unfold run. cbn [foldl handle].
    rewrite (onmessage_carries 0 mA A initial HmA).
    rewrite (onmessage_carries (1 # 2) mB B _ HmB).
    rewrite !enqueue_cursor, !enqueue_nodes.
    cbn [initial nextStartTimeRef sourceNodes app].
    assert (H1 : Qmax 0 0 + duration A == 2) by (rewrite HA; reflexivity).
    assert (H2 : Qmax (Qmax 0 0 + duration A) (1 # 2) == 2).
    { rewrite H1. reflexivity. }
    split_and!.
    + exact H1.
    + eexists. split_and!; [reflexivity | reflexivity | exact H2 |].
      cbn [startTime]. rewrite H2. intros Heq. discriminate Heq.
    + rewrite H2, HB. reflexivity.
  - by apply run_arrivals.
  - rewrite (run_arrivals arrivals st Harrivals).
    assert (Hdur : Forall (λ seg, 0 <= duration seg.2) (arrival_segments arrivals)).
    { apply Forall_fmap. eapply Forall_impl; [exact Harrivals|].
      intros a (base64 & _ & Hseg & _). cbn. apply Qlt_le_weak.
      exact (decode_segment_duration base64 a.2 Hseg). }
    destruct (enqueue_all_back_to_back (arrival_segments arrivals) st Hdur)
      as (nodes & Hnodes & Hsegs & Hbb).
    exists nodes. split_and!; [done | | apply Hbb].
    unfold arrival_segments in Hsegs. by apply Forall2_fmap_l in Hsegs.
Qed.

Lemma enqueue_back_to_back_witness :
  let mA := audio_message (silence (Z.to_nat 48000)) in
  let A := silent_segment (Z.to_nat 48000) in
  let mB := audio_message (silence (Z.to_nat 24000)) in
  let B := silent_segment (Z.to_nat 24000) in
  let st := initial in
  let now := 1 # 2 in
  let arrivals := [(0, mA, A); (1 # 2, mB, B); (4, mA, A)] in
  (onmessage now mB st = enqueue now B st
   ∧ sourceNodes (onmessage now mB st) =
       sourceNodes st ++
         [{| buffer := B; startTime := Qmax (nextStartTimeRef st) now; stopped := false |}]
   ∧ nextStartTimeRef (onmessage now mB st)
     = Qmax (nextStartTimeRef st) now + duration B
   ∧ sourcesRef (onmessage now mB st) = {[length (sourceNodes st)]} ∪ sourcesRef st)
  ∧ (let st1 := run [Message 0 mA] initial in
     let st2 := run [Message 0 mA; Message (1 # 2) mB] initial in
     nextStartTimeRef st1 == 2
     ∧ (∃ nodeB, sourceNodes st2 !! 1%nat = Some nodeB
                 ∧ buffer nodeB = B
                 ∧ startTime nodeB == 2
                 ∧ ¬ startTime nodeB == 1 # 2)
     ∧ nextStartTimeRef st2 == 3)
  ∧ (run (arrival_events arrivals) st = enqueue_all (arrival_segments arrivals) st
     ∧ ∃ nodes,
         sourceNodes (run (arrival_events arrivals) st) = sourceNodes st ++ nodes
         ∧ Forall2 (λ a n, buffer n = a.2 ∧ a.1.1 <= startTime n) arrivals nodes
         ∧ ∀ i n1 n2, nodes !! i = Some n1 → nodes !! S i = Some n2 →
             startTime n1 <= startTime n2
             ∧ startTime n1 + duration (buffer n1) <= startTime n2).
Proof.
  cbv zeta.
  assert (HA : carries (audio_message (silence (Z.to_nat 48000)))
                       (silent_segment (Z.to_nat 48000)))
    by (apply silence_carries; lia).
  assert (HB : carries (audio_message (silence (Z.to_nat 24000)))
                       (silent_segment (Z.to_nat 24000)))
    by (apply silence_carries; lia).
  apply (enqueue_back_to_back initial (1 # 2)
           (audio_message (silence (Z.to_nat 24000)))
           (audio_message (silence (Z.to_nat 48000)))
           (audio_message (silence (Z.to_nat 24000)))
           (silent_segment (Z.to_nat 24000))
           (silent_segment (Z.to_nat 48000))
           (silent_segment (Z.to_nat 24000))).
  - exact HB.
  - exact HA.
  - exact HB.
  - unfold duration, silent_segment. cbn [frames sampleRate].
    rewrite Z2Nat.id by lia. reflexivity.
  - unfold duration, silent_segment. cbn [frames sampleRate].
    rewrite Z2Nat.id by lia. reflexivity.
  - repeat (apply Forall_cons_2; [assumption|]). apply Forall_nil_2.
Defined.
End Scheduler.

(** ** The session *)

Section Session.
Import LiveInterface WebAudio.
Local Open Scope Q_scope.

(** After the loop of line 92 the nodes of the set are stopped, and the
    others are as they were. *)
Lemma stop_all_lookup (active : gset nat) (nodes : list SourceNode) (h : nat) :
  set_fold (λ s nodes, alter stop_node s nodes) nodes active !! h =
  if decide (h ∈ active) then stop_node <$> nodes !! h else nodes !! h.
Proof.
  revert h.
  refine (set_fold_ind_L
    (λ (r : list SourceNode) (X : gset nat), ∀ h,
       r !! h = if decide (h ∈ X) then stop_node <$> nodes !! h else nodes !! h)
    (λ s nodes, alter stop_node s nodes) nodes _ _ active).
  - intros h. case_decide; [set_solver | done].
  - intros x X r Hx IH h. destruct (decide (h = x)) as [->|Hne].
    + rewrite list_lookup_alter_eq, IH.
      rewrite decide_False by done.
      rewrite decide_True by (apply elem_of_union_l, elem_of_singleton; reflexivity).
      done.
    + rewrite list_lookup_alter_ne by done. rewrite IH.
      destruct (decide (h ∈ X)) as [Hin|Hout].
      * rewrite decide_True by (by apply elem_of_union_r). done.
      * rewrite decide_False; [done|].
        rewrite elem_of_union, elem_of_singleton. tauto.
Qed.


Lemma interrupt_lookup (st : State) (h : nat) :
  sourceNodes (interrupt st) !! h =
  if decide (h ∈ sourcesRef st) then stop_node <$> sourceNodes st !! h
  else sourceNodes st !! h.
Proof.
  unfold interrupt. cbn [sourceNodes set_nextStartTime set_sources].
  apply stop_all_lookup.
Qed.




(** C7, as the code has it. The error callback only logs: the active flag,
    the session, the cursor, the active set, the nodes and the transport are
    as they were, and the error is added to the console. The flag goes down
    when the close callback fires or the session is stopped. *)
Theorem onerror_only_logs (st : State) (e : string) :
  isActive (onerror e st) = isActive st
  ∧ sessionRef (onerror e st) = sessionRef st
  ∧ nextStartTimeRef (onerror e st) = nextStartTimeRef st
  ∧ sourcesRef (onerror e st) = sourcesRef st
  ∧ sourceNodes (onerror e st) = sourceNodes st
  ∧ closedSessions (onerror e st) = closedSessions st
  ∧ console (onerror e st) = console st ++ [e]
  ∧ isActive (onclose (onerror e st)) = false
  ∧ isActive (stopSession (onerror e st)) = false.
Proof. split_and!; reflexivity. Qed.

(** An open session is still active after the error callback. *)
Lemma onerror_leaves_session_active :
  let st := handle (Resolved 0) (handle Open initial) in
  isActive st = true
  ∧ ¬ (isActive (handle (Error "transport error") st) = false).
Proof. split; [reflexivity | discriminate]. Qed.

(** C8, as the code has it. The handler of a message does not read the
    active flag: it does to a session that is not active what it does to an
    active one. A message with an audio payload that decodes, and without the
    interruption signal, received when the flag is down, enqueues its
    segment: a node is created and the cursor moves. *)
Theorem onmessage_ignores_isActive (st : State) (now : Q)
    (message : LiveServerMessage) (flag : bool) (base64 : list N) (seg : AudioBuffer)
    (Hpayload : audio_payload message = Some base64)
    (Hseg : decode_segment base64 = Some seg)
    (Hplain : interrupted message = false) :
  onmessage now message (setIsActive flag st) = setIsActive flag (onmessage now message st)
  ∧ onmessage now message (setIsActive false st) = setIsActive false (enqueue now seg st)
  ∧ sourceNodes (onmessage now message (setIsActive false st)) =
      sourceNodes st ++
        [{| buffer := seg; startTime := Qmax (nextStartTimeRef st) now; stopped := false |}]
  ∧ nextStartTimeRef (onmessage now message (setIsActive false st)) =
      Qmax (nextStartTimeRef st) now + duration seg.
Proof.
  unfold onmessage.
  rewrite (audio_payload_parts message base64 Hpayload), Hpayload. cbv zeta. rewrite Hseg.
  unfold on_interrupted. rewrite Hplain. split_and!; reflexivity.
Qed.

Lemma onmessage_ignores_isActive_witness :
  let message := {| modelTurn := Some {| parts := Some [Some (code_units "AAA=")] |};
       interrupted := false |} in
  let seg := {| numberOfChannels := 1; frames := 1; sampleRate := 24000;
                channelData := [[S754_zero false]] |} in
  onmessage 1 message (setIsActive true initial) = setIsActive true (onmessage 1 message initial)
  ∧ onmessage 1 message (setIsActive false initial) = setIsActive false (enqueue 1 seg initial)
  ∧ sourceNodes (onmessage 1 message (setIsActive false initial)) =
      sourceNodes initial ++
        [{| buffer := seg; startTime := Qmax (nextStartTimeRef initial) 1; stopped := false |}]
  ∧ nextStartTimeRef (onmessage 1 message (setIsActive false initial)) =
      Qmax (nextStartTimeRef initial) 1 + duration seg.
Proof.
  apply (onmessage_ignores_isActive initial 1
           {| modelTurn := Some {| parts := Some [Some (code_units "AAA=")] |};
       interrupted := false |}
           true (code_units "AAA=")).
  - reflexivity.
  - vm_compute. reflexivity.
  - reflexivity.
Defined.

(** A session that is not active schedules the audio it receives. *)
Lemma audio_scheduled_when_not_active :
  let message := {| modelTurn := Some {| parts := Some [Some (code_units "AAA=")] |};
       interrupted := false |} in
  ¬ (isActive initial = false →
     sourceNodes (onmessage 1 message initial) = sourceNodes initial
     ∧ nextStartTimeRef (onmessage 1 message initial) == nextStartTimeRef initial).
Proof.
  cbv zeta. intros Hdrop. destruct (Hdrop eq_refl) as [Hnodes _].
  vm_compute in Hnodes. discriminate Hnodes.
Qed.

(** C9. [stopSession] on an active session with its transport closes the
    transport, once, forgets it and puts the flag down; a second
    [stopSession] changes nothing, and this holds from every state. *)
Theorem stopSession_idempotent (st : State) (session : nat)
    (Hactive : isActive st = true)
    (Hsession : sessionRef st = Some session) :
  isActive (stopSession st) = false
  ∧ sessionRef (stopSession st) = None
  ∧ closedSessions (stopSession st) = closedSessions st ++ [session]
  ∧ stopSession (stopSession st) = stopSession st
  ∧ (∀ st0, stopSession (stopSession st0) = stopSession st0).
Proof.
  assert (Hidem : ∀ st0, stopSession (stopSession st0) = stopSession st0).
  { intros st0. unfold stopSession.
    destruct (sessionRef st0) eqn:E; cbn; [reflexivity | rewrite E; reflexivity]. }
  split_and!; [unfold stopSession; rewrite Hsession; reflexivity.. | apply Hidem | apply Hidem].
Qed.

Lemma stopSession_idempotent_witness :
  let st := session_resolved 7 (onopen initial) in
  isActive (stopSession st) = false
  ∧ sessionRef (stopSession st) = None
  ∧ closedSessions (stopSession st) = closedSessions st ++ [7%nat]
  ∧ stopSession (stopSession st) = stopSession st
  ∧ (∀ st0, stopSession (stopSession st0) = stopSession st0).
Proof.
  apply (stopSession_idempotent (session_resolved 7 (onopen initial)) 7).
  - reflexivity.
  - reflexivity.
Defined.
End Session.

(** ** The transport codec: the shape of the text, and what is refused *)

Section TransportText.
Import LiveInterface Base64 Base64Aux.

Lemma encode_groups_count (l : list N) :
  length (encode_groups l) = (4 * ((length l + 2) / 3))%nat.
Proof.
  induction l as [| a | a b | a b c rest IH] using list_ind_by_3; try reflexivity.
  cbn [encode_groups length]. rewrite IH.
  replace (S (S (S (length rest))) + 2)%nat with ((length rest + 2) + 1 * 3)%nat by lia.
  rewrite Nat.div_add by lia. lia.
Qed.

Lemma b64_char_alphabet (v : N) : (v < 64)%N → b64_char v ∈ alphabet.
Proof.
  intros Hv. unfold b64_char.
  destruct (lookup_lt_is_Some_2 alphabet (N.to_nat v)) as [c Hc].
  { change (length alphabet) with 64%nat. lia. }
  rewrite Hc. cbn. by eapply list_elem_of_lookup_2.
Qed.

(** X1. [encode] never throws; its text has four characters for every
    three bytes, the last group being completed, and is made of characters
    of the alphabet and of [=]. *)
Theorem encode_text_shape (bytes : list byte) :
  ∃ text,
    encode bytes = Some text
    ∧ length text = (4 * ((length bytes + 2) / 3))%nat
    ∧ Forall (λ c, c ∈ alphabet ∨ c = pad) text.
Proof.
  exists (encode_groups (map Byte.to_N bytes)). split_and!.
  - apply encode_Some.
  - by rewrite encode_groups_count, length_map.
  - rewrite encode_groups_split. apply Forall_app. split.
    + apply Forall_fmap. eapply Forall_impl; [apply sextets_bounded, to_N_below_256|].
      intros v Hv. left. by apply b64_char_alphabet.
    + destruct (padding_cases (map Byte.to_N bytes)) as [-> | [-> | ->]];
        repeat (apply Forall_cons_2; [by right|]); apply Forall_nil_2.
Qed.

(** X2. Two sequences of bytes with the same text are the same. *)
Theorem encode_injective (bytes1 bytes2 : list byte)
    (Htext : encode bytes1 = encode bytes2) :
  bytes1 = bytes2.
Proof.
  rewrite !encode_Some in Htext. injection Htext as Htext.
  pose proof (decode_encode_groups bytes1) as H1.
  rewrite Htext, decode_encode_groups in H1. by injection H1.
Qed.

Lemma encode_injective_witness :
  encode [x01; xff] = encode [x01; xff] ∧ [x01; xff] = [x01; xff].
Proof.
  split; [reflexivity | apply (encode_injective [x01; xff] [x01; xff]); reflexivity].
Defined.

Lemma strip_padding_keeps (s : list N) (c : N) :
  c ∈ s → c ≠ pad → c ∈ strip_padding s.
Proof.
  intros Hc Hpad. unfold strip_padding.
  apply list_elem_of_In, in_rev in Hc.
  destruct (rev s) as [|c1 r1] eqn:E; [destruct Hc|].
  destruct (N.eqb_spec c1 pad) as [->|_].
  - destruct Hc as [Heq|Hc]; [by symmetry in Heq|].
    destruct r1 as [|c2 r2]; [destruct Hc|].
    destruct (N.eqb_spec c2 pad) as [->|_].
    + destruct Hc as [Heq|Hc]; [by symmetry in Heq|].
      by apply in_rev, list_elem_of_In in Hc.
    + by apply in_rev, list_elem_of_In in Hc.
  - rewrite <- E in Hc. by apply in_rev, list_elem_of_In in Hc.
Qed.

(** X3. [decode] throws on a text that holds a character which is neither
    of the alphabet, nor [=], nor white space, wherever it stands. *)
Theorem decode_rejects_foreign_character (base64 : list N) (c : N)
    (Hin : c ∈ base64)
    (Hforeign : b64_value c = None)
    (Hspace : is_ascii_whitespace c = false)
    (Hpad : c ≠ pad) :
  decode base64 = None.
Proof.
  unfold decode, atob.
  set (d0 := List.filter (λ c, negb (is_ascii_whitespace c)) base64).
  assert (Hd0 : c ∈ d0).
  { apply list_elem_of_In, filter_In. split; [by apply list_elem_of_In|].
    by rewrite Hspace. }
  set (d := if (length d0 mod 4 =? 0)%nat then strip_padding d0 else d0).
  assert (Hd : c ∈ d).
  { unfold d. destruct (length d0 mod 4 =? 0)%nat; [by apply strip_padding_keeps | done]. }
  assert (Hvalues : mapM b64_value d = None).
  { destruct (mapM b64_value d) eqn:E; [|done].
    assert (Hall : Forall (is_Some ∘ b64_value) d) by (apply mapM_is_Some; eauto).
    rewrite Forall_forall in Hall. specialize (Hall c Hd). cbn in Hall.
    rewrite Hforeign in Hall. by destruct Hall. }
  cbv zeta. fold d0. fold d. rewrite Hvalues.
  by destruct (length d mod 4 =? 1)%nat.
Qed.

Lemma decode_rejects_foreign_character_witness :
  decode (code_units "AA-A") = None.
Proof.
  apply (decode_rejects_foreign_character (code_units "AA-A") 45%N).
  - apply list_elem_of_lookup. by exists 2%nat.
  - reflexivity.
  - reflexivity.
  - discriminate.
Defined.
End TransportText.

(** ** The decoder: what it refuses, the shape of its buffer, its samples *)

Section DecoderEdges.
Import LiveInterface WebAudio.

Lemma odd_not_even (n : nat) : Nat.odd n = negb (Nat.even n).
Proof. by rewrite <- Nat.negb_even. Qed.

(** X4. [decodeAudioData] throws when the number of bytes is odd, when
    there is no channel, when the data has less than one frame (fewer
    16-bit cells than channels, as with no data), and when the sample rate
    is not positive. It returns a buffer when none of these is the case and
    the arguments are in the ranges that every implementation of the
    platform supports: 32 channels at most, a sample rate from 8000 to
    96000 Hz, less than 2^32 bytes. *)
Theorem decodeAudioData_throws (data : list byte) (sampleRate : Q) (numChannels : nat) :
  (Nat.odd (length data) = true
   ∨ numChannels = 0%nat
   ∨ (length data / 2 < numChannels)%nat
   ∨ (sampleRate <= 0)%Q →
   decodeAudioData data sampleRate numChannels = None)
  ∧ (Nat.even (length data) = true →
     (1 ≤ numChannels ≤ 32)%nat →
     (numChannels ≤ length data / 2)%nat →
     (Z.of_nat (length data) < 2 ^ 32)%Z →
     (8000 <= sampleRate)%Q → (sampleRate <= 96000)%Q →
     is_Some (decodeAudioData data sampleRate numChannels)).
Proof.
  rewrite decodeAudioData_eq, odd_not_even. cbv zeta. rewrite int16_cells_length.
  set (cells := (length data / 2)%nat).
  assert (Hframes : numChannels ≠ 0%nat →
    ((cells / numChannels =? 0) = true ↔ cells < numChannels)%nat).
  { intros Hnc. rewrite Nat.eqb_eq. by apply Nat.div_small_iff. }
  split.
  - intros [Hodd | [-> | [Hfew | Hrate]]].
    + apply negb_true_iff in Hodd. by rewrite Hodd.
    + by destruct (Nat.even (length data)).
    + destruct (Nat.even (length data)); [|done].
      destruct (Nat.eqb_spec numChannels 0) as [|Hnc]; [done|].
      apply (Hframes Hnc) in Hfew. by rewrite Hfew.
    + destruct (Nat.even (length data)); [|done].
      apply Qle_bool_iff in Hrate. rewrite Hrate. by rewrite !orb_true_r.
  - intros -> Hchannels Hfit _ Hlow _.
    destruct (Nat.eqb_spec numChannels 0) as [|Hnc]; [lia|].
    destruct (Nat.eqb_spec (cells / numChannels) 0) as [E|_];
      [apply Nat.div_small_iff in E; lia|].
    destruct (Qle_bool sampleRate 0) eqn:Ele; [|by eexists].
    apply Qle_bool_iff in Ele.
    assert (Hcontra : (8000 <= 0)%Q) by (by eapply Qle_trans).
    by apply Qle_not_lt in Hcontra.
Qed.

(** X5. The buffer that [decodeAudioData] returns has [numChannels]
    channels of as many samples as the data has whole frames: the cells
    left over at the end, less than a frame, are dropped. It keeps the
    sample rate, and lasts for some time. *)
Theorem decodeAudioData_shape (data : list byte) (sampleRate : Q) (numChannels : nat)
    (buf : AudioBuffer)
    (Hbuf : decodeAudioData data sampleRate numChannels = Some buf) :
  numberOfChannels buf = numChannels
  ∧ frames buf = (length data / 2 / numChannels)%nat
  ∧ (frames buf * numChannels ≤ length data / 2 < (frames buf + 1) * numChannels)%nat
  ∧ WebAudio.sampleRate buf = sampleRate
  ∧ length (channelData buf) = numChannels
  ∧ Forall (λ samples, length samples = frames buf) (channelData buf)
  ∧ (0 < duration buf)%Q.
Proof.
  rewrite decodeAudioData_eq in Hbuf. cbv zeta in Hbuf.
  rewrite int16_cells_length in Hbuf.
  destruct (Nat.even (length data)); [|done].
  set (cells := (length data / 2)%nat) in *.
  destruct (Nat.eqb_spec numChannels 0) as [|Hnc]; [done|].
  destruct (Nat.eqb_spec (cells / numChannels) 0) as [|Hn]; [done|].
  destruct (Qle_bool sampleRate 0) eqn:Ele; [done|].
  cbn [orb] in Hbuf. injection Hbuf as <-.
  cbn [numberOfChannels frames WebAudio.sampleRate channelData].
  split_and!; try done.
  - rewrite Nat.mul_comm. apply Nat.Div0.mul_div_le.
  - pose proof (Nat.div_mod cells numChannels Hnc).
    pose proof (Nat.mod_upper_bound cells numChannels Hnc). lia.
  - by rewrite length_map, length_seq.
  - apply Forall_fmap, Forall_forall. intros c _. cbn.
    by rewrite length_map, length_seq.
  - unfold duration. cbn [frames WebAudio.sampleRate].
    assert (Hrate : (0 < sampleRate)%Q).
    { apply Qnot_le_lt. intros Hle. apply Qle_bool_iff in Hle. congruence. }
    apply Qlt_shift_div_l; [exact Hrate|]. rewrite Qmult_0_l.
    change 0%Q with (inject_Z 0). rewrite <- Zlt_Qlt. lia.
Qed.

Lemma decodeAudioData_shape_witness :
  let data := [x01; x00; xff; x7f; x00; x80; xfe; xff; x05; x00] in
  ∃ buf,
    decodeAudioData data 24000 2 = Some buf
    ∧ numberOfChannels buf = 2%nat
    ∧ frames buf = (length data / 2 / 2)%nat
    ∧ (frames buf * 2 ≤ length data / 2 < (frames buf + 1) * 2)%nat
    ∧ WebAudio.sampleRate buf = 24000%Q
    ∧ length (channelData buf) = 2%nat
    ∧ Forall (λ samples, length samples = frames buf) (channelData buf)
    ∧ (0 < duration buf)%Q.
Proof.
  cbv zeta. eexists. split; [vm_compute; reflexivity|].
  apply (decodeAudioData_shape [x01; x00; xff; x7f; x00; x80; xfe; xff; x05; x00] 24000 2).
  vm_compute. reflexivity.
Defined.

(** X6. Every sample of the buffer that [decodeAudioData] returns is the
    quotient by 32768 of the 16-bit cell of its frame and channel: a finite
    number, which stands for a rational of [[-1, 1)]. No sample is [NaN],
    also when the data ends in the middle of a frame and the loop reads
    past the last cell. *)
Theorem decodeAudioData_samples_finite (data : list byte) (sampleRate : Q)
    (numChannels c i : nat) (buf : AudioBuffer) (samples : list spec_float)
    (x : spec_float)
    (Hbuf : decodeAudioData data sampleRate numChannels = Some buf)
    (Hchannel : channelData buf !! c = Some samples)
    (Hsample : samples !! i = Some x) :
  ∃ v q,
    int16_cells data !! (i * numChannels + c)%nat = Some v
    ∧ x = div (of_int v) (of_int 32768)
    ∧ value x = Some q
    ∧ (q == v # 32768 ∧ -1 <= q ∧ q < 1)%Q.
Proof.
  rewrite decodeAudioData_eq in Hbuf. cbv zeta in Hbuf.
  destruct (Nat.even (length data)); [|done].
  set (cells := int16_cells data) in *.
  set (n := (length cells / numChannels)%nat) in *.
  destruct (Nat.eqb_spec numChannels 0) as [|Hnc]; [done|].
  cbn [orb] in Hbuf.
  destruct ((n =? 0)%nat || Qle_bool sampleRate 0); [done|].
  injection Hbuf as <-. cbn [channelData] in Hchannel.
  rewrite list_lookup_fmap in Hchannel.
  destruct (decide (c < numChannels)%nat) as [Hc|Hc];
    [|by rewrite lookup_seq_ge in Hchannel by lia].
  rewrite lookup_seq_lt in Hchannel by done. cbn in Hchannel.
  injection Hchannel as <-. rewrite list_lookup_fmap in Hsample.
  destruct (decide (i < n)%nat) as [Hi|Hi];
    [|by rewrite lookup_seq_ge in Hsample by lia].
  rewrite lookup_seq_lt in Hsample by done. cbn in Hsample.
  assert (Hidx : (i * numChannels + c < length cells)%nat).
  { pose proof (Nat.Div0.mul_div_le (length cells) numChannels) as Hle.
    fold n in Hle. nia. }
  destruct (lookup_lt_is_Some_2 cells _ Hidx) as [v Hv]. rewrite Hv in Hsample.
  assert (Hrange : (-32768 ≤ v ≤ 32767)%Z).
  { pose proof (int16_cells_range data) as Hall. rewrite Forall_lookup in Hall.
    exact (Hall _ _ Hv). }
  destruct (pcm16_sample v Hrange) as (Hround & (q & Hq & Heq & Hlo & _) & _).
  rewrite Hround in Hsample. injection Hsample as <-.
  exists v, q. split_and!; [done | done | done | done | done |].
  rewrite Heq. unfold Qlt. cbn [Qnum Qden]. lia.
Qed.

Lemma decodeAudioData_samples_finite_witness :
  let data := [x01; x00; xff; x7f; x00; x80; xfe; xff; x05; x00] in
  ∃ v q,
    int16_cells data !! (1 * 2 + 1)%nat = Some v
    ∧ S754_finite true 4503599627370496 (-66) = div (of_int v) (of_int 32768)
    ∧ value (S754_finite true 4503599627370496 (-66)) = Some q
    ∧ (q == v # 32768 ∧ -1 <= q ∧ q < 1)%Q.
Proof.
  cbv zeta.
  refine (decodeAudioData_samples_finite
            [x01; x00; xff; x7f; x00; x80; xfe; xff; x05; x00] 24000 2 1 1 _ _ _ _ _ _);
    vm_compute; reflexivity.
Defined.
End DecoderEdges.

(** ** The capture callback on any input *)

Section CapturePacket.
Import LiveInterface WebAudio.

Lemma toInt16_range (x : spec_float) : (-32768 ≤ toInt16 x ≤ 32767)%Z.
Proof.
  destruct x as [b | b | | s m e]; cbn [toInt16]; try lia.
  apply (toInt16_finite s m e).
Qed.

Lemma toUint8_below_256 (n : N) : (n < 256)%N → Byte.to_N (toUint8 (Some n)) = n.
Proof.
  intros Hn. unfold toUint8. rewrite N.mod_small by done.
  destruct (Byte.of_N n) as [b|] eqn:E.
  - cbn. by apply Byte.to_of_N.
  - apply Byte.of_N_None_iff in E. lia.
Qed.

(** The cells of the bytes of 16-bit cells are these cells. *)
Lemma int16_cells_of_Uint8Array (cells : list Z) :
  Forall (λ v, -32768 ≤ v ≤ 32767)%Z cells →
  int16_cells (Uint8Array_of_buffer cells) = cells.
Proof.
  induction 1 as [|v cells Hv _ IH]; [done|].
  cbn [Uint8Array_of_buffer flat_map app int16_cells].
  change (flat_map _ cells) with (Uint8Array_of_buffer cells). rewrite IH.
  rewrite !toUint8_below_256 by lia. rewrite !Z2N.id by lia.
  f_equal. destruct (Z.leb_spec 32768 (v mod 256 + 256 * ((v / 256) mod 256))); lia.
Qed.

Lemma Uint8Array_of_buffer_length (cells : list Z) :
  length (Uint8Array_of_buffer cells) = (2 * length cells)%nat.
Proof.
  induction cells as [|v cells IH]; [done|].
  cbn [Uint8Array_of_buffer flat_map app length].
  change (flat_map _ cells) with (Uint8Array_of_buffer cells). rewrite IH. lia.
Qed.

(** The loop of line 71 converts each sample. *)
Lemma capture_cells (inputData : list spec_float) :
  for_loop (length inputData)
    (λ i int16, <[i := floatSampleToPcm16 (default NaN (inputData !! i))]> int16)
    (new_Int16Array (length inputData))
  = map floatSampleToPcm16 inputData.
Proof.
  rewrite for_loop_store_all by apply length_replicate.
  apply list_eq. intros j. rewrite !list_lookup_fmap.
  destruct (decide (j < length inputData)%nat) as [Hlt|Hge].
  - rewrite lookup_seq_lt by done. cbn.
    destruct (lookup_lt_is_Some_2 inputData j Hlt) as [x Hx]. by rewrite Hx.
  - rewrite lookup_seq_ge by lia. by rewrite (lookup_ge_None_2 inputData j) by lia.
Qed.

(** X8. The capture callback never throws, whatever the samples: its
    packet has the type [audio/pcm;rate=16000], and its text decodes to two
    bytes for each sample, which are, low byte first, the 16-bit values of
    the samples in their order; each of these is in [[-32768, 32767]]. *)
Theorem capture_packet_decodes (inputData : list spec_float) :
  ∃ text bytes,
    capture_packet inputData = Some (text, "audio/pcm;rate=16000"%string)
    ∧ decode text = Some bytes
    ∧ length bytes = (2 * length inputData)%nat
    ∧ int16_cells bytes = map floatSampleToPcm16 inputData
    ∧ Forall (λ v, -32768 ≤ v ≤ 32767)%Z (map floatSampleToPcm16 inputData).
Proof.
  set (cells := map floatSampleToPcm16 inputData).
  assert (Hrange : Forall (λ v, -32768 ≤ v ≤ 32767)%Z cells).
  { apply Forall_fmap, Forall_forall. intros x _. apply toInt16_range. }
  exists (Base64.encode_groups (map Byte.to_N (Uint8Array_of_buffer cells))),
         (Uint8Array_of_buffer cells).
  split_and!.
  - unfold capture_packet. cbv zeta. rewrite capture_cells. fold cells.
    by rewrite encode_Some.
  - apply decode_encode_groups.
  - unfold cells. by rewrite Uint8Array_of_buffer_length, length_map.
  - by apply int16_cells_of_Uint8Array.
  - exact Hrange.
Qed.
End CapturePacket.

(** ** The session over sequences of events *)

Section SessionRuns.
Import LiveInterface WebAudio.
Local Open Scope Q_scope.

Lemma interrupt_length (st : State) :
  length (sourceNodes (interrupt st)) = length (sourceNodes st).
Proof.
  unfold interrupt. cbn [sourceNodes set_nextStartTime set_sources].
  refine (set_fold_ind_L (λ (r : list SourceNode) (_ : gset nat),
    length r = length (sourceNodes st))
    (λ s nodes, alter stop_node s nodes) (sourceNodes st) _ _ (sourcesRef st));
    [done|].
  intros x X r _ IH. by rewrite length_alter.
Qed.

(** X9. A message whose audio payload does not decode ends its handler at
    the decoder: the cursor has been brought up to the clock and is not put
    back to 0, no node is created, and the interruption signal of the
    message, if it has one, is not acted upon: the active set and its nodes,
    stopped or not, are as they were. *)
Theorem onmessage_malformed_payload (st : State) (now : Q)
    (message : LiveServerMessage) (base64 : list N)
    (Hpayload : audio_payload message = Some base64)
    (Hmalformed : decode_segment base64 = None) :
  let st' := onmessage now message st in
  nextStartTimeRef st' = Qmax (nextStartTimeRef st) now
  ∧ sourceNodes st' = sourceNodes st
  ∧ sourcesRef st' = sourcesRef st
  ∧ isActive st' = isActive st
  ∧ sessionRef st' = sessionRef st.
Proof.
  cbv zeta. unfold onmessage.
  rewrite (audio_payload_parts message base64 Hpayload), Hpayload. cbv zeta. rewrite Hmalformed.
  split_and!; reflexivity.
Qed.

Lemma onmessage_malformed_payload_witness :
  let message := {| modelTurn := Some {| parts := Some [Some (code_units "AAAA")] |};
       interrupted := true |} in
  let st := enqueue 0 {| numberOfChannels := 1; frames := 2; sampleRate := 1;
                         channelData := [] |} initial in
  let st' := onmessage (1 # 2) message st in
  nextStartTimeRef st' = Qmax (nextStartTimeRef st) (1 # 2)
  ∧ sourceNodes st' = sourceNodes st
  ∧ sourcesRef st' = sourcesRef st
  ∧ isActive st' = isActive st
  ∧ sessionRef st' = sessionRef st.
Proof.
  apply (onmessage_malformed_payload
           (enqueue 0 {| numberOfChannels := 1; frames := 2; sampleRate := 1;
                         channelData := [] |} initial)
           (1 # 2) {| modelTurn := Some {| parts := Some [Some (code_units "AAAA")] |};
       interrupted := true |}
           (code_units "AAAA")).
  - reflexivity.
  - vm_compute. reflexivity.
Defined.

Lemma handle_active_sound (ev : Event) (st : State) :
  active_sound st → active_sound (handle ev st).
Proof.
  intros Hst.
  assert (Hint : ∀ st0, active_sound (interrupt st0)).
  { intros st0 h Hh. cbn in Hh. by apply elem_of_empty in Hh. }
  assert (Hon : ∀ message st0, active_sound st0 →
                  active_sound (on_interrupted message st0)).
  { intros message st0 H0. unfold on_interrupted.
    destruct (interrupted message); [apply Hint | exact H0]. }
  destruct ev as [| session | now message | source | | e |]; cbn [handle]; try exact Hst.
  - unfold onmessage. destruct (parts_missing message); [exact Hst|].
    destruct (audio_payload message) as [base64|]; [|by apply Hon].
    cbv zeta. destruct (decode_segment base64) as [b|]; [|exact Hst].
    apply Hon. intros h Hh. cbn in Hh.
    apply elem_of_union in Hh as [Hh|Hh].
    + apply elem_of_singleton in Hh as ->. eexists. split.
      * cbn. rewrite lookup_app_r, Nat.sub_diag by lia. reflexivity.
      * reflexivity.
    + destruct (Hst h Hh) as (n & Hn & Hstop). exists n. split; [|done].
      cbn. by apply lookup_app_l_Some.
  - intros h Hh. cbn in Hh. apply elem_of_difference in Hh as [Hh _].
    exact (Hst h Hh).
  - unfold stopSession. destruct (sessionRef st); exact Hst.
Qed.

(** X10. Whatever the events since the component was mounted, the active
    set holds only nodes that were created and on which [stop] was not
    called. *)
Theorem run_active_sound (events : list Event) :
  active_sound (run events initial).
Proof.
  induction events as [|ev events IH] using rev_ind.
  - intros h Hh. cbn in Hh. by apply elem_of_empty in Hh.
  - rewrite run_snoc. by apply handle_active_sound.
Qed.

Lemma handle_keeps_node (ev : Event) (st : State) (h : nat) (n : SourceNode) :
  sourceNodes st !! h = Some n →
  ∃ n', sourceNodes (handle ev st) !! h = Some n'
        ∧ buffer n' = buffer n ∧ startTime n' = startTime n
        ∧ (stopped n = true → stopped n' = true).
Proof.
  intros Hn.
  assert (Hsame : ∃ n', sourceNodes st !! h = Some n'
        ∧ buffer n' = buffer n ∧ startTime n' = startTime n
        ∧ (stopped n = true → stopped n' = true)) by (by exists n).
  assert (Hon : ∀ message st0, sourceNodes st0 !! h = Some n →
    ∃ n', sourceNodes (on_interrupted message st0) !! h = Some n'
        ∧ buffer n' = buffer n ∧ startTime n' = startTime n
        ∧ (stopped n = true → stopped n' = true)).
  { intros message st0 H0. unfold on_interrupted.
    destruct (interrupted message); [|by exists n].
    rewrite interrupt_lookup, H0. case_decide; [|by exists n].
    exists (stop_node n). by split_and!. }
  destruct ev as [| session | now message | source | | e |]; cbn [handle]; try exact Hsame.
  - unfold onmessage. destruct (parts_missing message); [exact Hsame|].
    destruct (audio_payload message) as [base64|]; [|by apply Hon].
    cbv zeta. destruct (decode_segment base64) as [b|]; [|exact Hsame].
    apply Hon. cbn. by apply lookup_app_l_Some.
  - unfold stopSession. destruct (sessionRef st); exact Hsame.
Qed.

(** X11. A node, once created, is there for good: whatever the events that
    follow, it keeps its rank, its buffer and its start time, and once
    stopped it stays stopped. *)
Theorem run_keeps_nodes (events : list Event) (st : State) (h : nat) (n : SourceNode)
    (Hnode : sourceNodes st !! h = Some n) :
  ∃ n', sourceNodes (run events st) !! h = Some n'
        ∧ buffer n' = buffer n ∧ startTime n' = startTime n
        ∧ (stopped n = true → stopped n' = true).
Proof.
  induction events as [|ev events IH] using rev_ind; [by exists n|].
  destruct IH as (n1 & Hn1 & Hb1 & Ht1 & Hs1). rewrite run_snoc.
  destruct (handle_keeps_node ev (run events st) h n1 Hn1) as (n2 & Hn2 & Hb2 & Ht2 & Hs2).
  exists n2. split_and!; [done | congruence | congruence | auto].
Qed.

Lemma run_keeps_nodes_witness :
  let A := {| numberOfChannels := 1; frames := 2; sampleRate := 1; channelData := [] |} in
  let st := enqueue 0 A initial in
  let n := {| buffer := A; startTime := Qmax 0 0; stopped := false |} in
  let events := [Message 1 {| modelTurn := None; interrupted := true |}; Stop; Ended 0] in
  ∃ n', sourceNodes (run events st) !! 0%nat = Some n'
        ∧ buffer n' = buffer n ∧ startTime n' = startTime n
        ∧ (stopped n = true → stopped n' = true).
Proof.
  cbv zeta.
  apply (run_keeps_nodes
           [Message 1 {| modelTurn := None; interrupted := true |}; Stop; Ended 0]
           (enqueue 0 {| numberOfChannels := 1; frames := 2; sampleRate := 1;
                         channelData := [] |} initial)
           0
           {| buffer := {| numberOfChannels := 1; frames := 2; sampleRate := 1;
                           channelData := [] |};
              startTime := Qmax 0 0; stopped := false |}).
  reflexivity.
Defined.

Lemma handle_quiet (ev : Event) (st : State) :
  interrupting ev = false →
  ∃ new, sourceNodes (handle ev st) = sourceNodes st ++ new
         ∧ Forall (λ n, stopped n = false) new.
Proof.
  intros Hquiet.
  assert (Hsame : ∃ new, sourceNodes st = sourceNodes st ++ new
         ∧ Forall (λ n, stopped n = false) new).
  { exists []. by rewrite app_nil_r. }
  destruct ev as [| session | now message | source | | e |]; cbn [handle]; try exact Hsame.
  - cbn in Hquiet. unfold onmessage, on_interrupted. rewrite Hquiet.
    destruct (parts_missing message); [exact Hsame|].
    destruct (audio_payload message) as [base64|]; [|exact Hsame].
    cbv zeta. destruct (decode_segment base64) as [b|]; [|exact Hsame].
    eexists [_]. split; [reflexivity|]. by repeat constructor.
  - unfold stopSession. destruct (sessionRef st); exact Hsame.
Qed.

(** X12. Only a message with the interruption signal stops a node: over
    events that are not such messages (the session opening and closing,
    errors, nodes ending, the user stopping the session, messages without
    the signal) the nodes already there are left as they are, and the nodes
    created meanwhile are not stopped. *)
Theorem only_interruption_stops (events : list Event) (st : State)
    (Hquiet : Forall (λ ev, interrupting ev = false) events) :
  ∃ new, sourceNodes (run events st) = sourceNodes st ++ new
         ∧ Forall (λ n, stopped n = false) new.
Proof.
  induction events as [|ev events IH] using rev_ind.
  - exists []. by rewrite app_nil_r.
  - apply Forall_app in Hquiet as [Hevents Hev]. apply Forall_cons in Hev as [Hev _].
    destruct (IH Hevents) as (new1 & Hrun & Hnew1). rewrite run_snoc.
    destruct (handle_quiet ev (run events st) Hev) as (new2 & Hstep & Hnew2).
    exists (new1 ++ new2). split; [by rewrite Hstep, Hrun, app_assoc|].
    by apply Forall_app.
Qed.

Lemma only_interruption_stops_witness :
  let st := enqueue 0 {| numberOfChannels := 1; frames := 2; sampleRate := 1;
                         channelData := [] |} initial in
  let events := [Resolved 3; Message 1 {| modelTurn :=
                                            Some {| parts := Some [Some (code_units "AAA=")] |};
                                          interrupted := false |};
                 Error "lost"; Stop; Close] in
  ∃ new, sourceNodes (run events st) = sourceNodes st ++ new
         ∧ Forall (λ n, stopped n = false) new.
Proof.
  cbv zeta.
  apply (only_interruption_stops
           [Resolved 3; Message 1 {| modelTurn :=
                                       Some {| parts := Some [Some (code_units "AAA=")] |};
                                     interrupted := false |};
            Error "lost"; Stop; Close]).
  repeat (apply Forall_cons_2; [reflexivity|]). apply Forall_nil_2.
Defined.

(** X13. A node that has ended has left the active set: an interruption
    that comes later does not call [stop] on it, and does to the other
    nodes what it would have done. *)
Theorem ended_node_not_stopped (st : State) (h : nat) :
  sourceNodes (interrupt (onended h st)) !! h = sourceNodes st !! h
  ∧ (∀ h', h' ≠ h →
       sourceNodes (interrupt (onended h st)) !! h' = sourceNodes (interrupt st) !! h')
  ∧ sourcesRef (interrupt (onended h st)) = ∅.
Proof.
  split_and!; [| |reflexivity].
  - rewrite interrupt_lookup. cbn [onended sourcesRef sourceNodes set_sources].
    rewrite decide_False; [done|].
    rewrite elem_of_difference, elem_of_singleton. tauto.
  - intros h' Hne. rewrite !interrupt_lookup.
    cbn [onended sourcesRef sourceNodes set_sources].
    destruct (decide (h' ∈ sourcesRef st)) as [Hin|Hout].
    + rewrite decide_True; [done|].
      rewrite elem_of_difference, elem_of_singleton. tauto.
    + rewrite decide_False; [done|].
      rewrite elem_of_difference. tauto.
Qed.

(** X14. When the user stops the session before line 106 has stored it,
    nothing is closed: the session stored afterwards is open while the flag
    is down, and a second [stopSession] is what closes it. *)
Theorem stop_before_session_resolves (st : State) (session : nat)
    (Hpending : sessionRef st = None) :
  let st' := session_resolved session (stopSession st) in
  closedSessions st' = closedSessions st
  ∧ sessionRef st' = Some session
  ∧ isActive st' = false
  ∧ closedSessions (stopSession st') = closedSessions st ++ [session]
  ∧ sessionRef (stopSession st') = None.
Proof.
  cbv zeta.
  assert (Hstop : stopSession st = setIsActive false st)
    by (unfold stopSession; rewrite Hpending; reflexivity).
  rewrite Hstop. split_and!; reflexivity.
Qed.

Lemma stop_before_session_resolves_witness :
  let st := onopen initial in
  let st' := session_resolved 7 (stopSession st) in
  closedSessions st' = closedSessions st
  ∧ sessionRef st' = Some 7%nat
  ∧ isActive st' = false
  ∧ closedSessions (stopSession st') = closedSessions st ++ [7%nat]
  ∧ sessionRef (stopSession st') = None.
Proof.
  apply (stop_before_session_resolves (onopen initial) 7). reflexivity.
Defined.

(** X15. A message whose audio payload decodes leaves the cursor after the
    clock and after where it was: a decoded segment lasts for some time, its
    node starts at the clock or later, and the cursor is where the node
    ends. *)
Theorem onmessage_advances_cursor (st : State) (now : Q)
    (message : LiveServerMessage) (base64 : list N) (seg : AudioBuffer)
    (Hpayload : audio_payload message = Some base64)
    (Hseg : decode_segment base64 = Some seg)
    (Hplain : interrupted message = false) :
  let st' := onmessage now message st in
  now < nextStartTimeRef st'
  ∧ nextStartTimeRef st < nextStartTimeRef st'
  ∧ ∃ node, sourceNodes st' !! length (sourceNodes st) = Some node
            ∧ now <= startTime node
            ∧ nextStartTimeRef st <= startTime node
            ∧ nextStartTimeRef st' == startTime node + duration (buffer node).
Proof.
  cbv zeta. unfold onmessage.
  rewrite (audio_payload_parts message base64 Hpayload), Hpayload. cbv zeta. rewrite Hseg.
  unfold on_interrupted. rewrite Hplain.
  pose proof (decode_segment_duration base64 seg Hseg) as Hdur.
  cbn [schedule anchor nextStartTimeRef set_sources set_nextStartTime sourceNodes].
  assert (Hgrow : Qmax (nextStartTimeRef st) now
                  < Qmax (nextStartTimeRef st) now + duration seg).
  { rewrite <- (Qplus_0_r (Qmax (nextStartTimeRef st) now)) at 1.
    by apply Qplus_lt_r. }
  split_and!.
  - eapply Qle_lt_trans; [apply Q.le_max_r | exact Hgrow].
  - eapply Qle_lt_trans; [apply Q.le_max_l | exact Hgrow].
  - eexists. split_and!.
    + rewrite lookup_app_r, Nat.sub_diag by lia. reflexivity.
    + apply Q.le_max_r.
    + apply Q.le_max_l.
    + reflexivity.
Qed.

Lemma onmessage_advances_cursor_witness :
  let message := {| modelTurn := Some {| parts := Some [Some (code_units "AAA=")] |};
       interrupted := false |} in
  let st' := onmessage 1 message initial in
  1 < nextStartTimeRef st'
  ∧ nextStartTimeRef initial < nextStartTimeRef st'
  ∧ ∃ node, sourceNodes st' !! length (sourceNodes initial) = Some node
            ∧ 1 <= startTime node
            ∧ nextStartTimeRef initial <= startTime node
            ∧ nextStartTimeRef st' == startTime node + duration (buffer node).
Proof.
  cbv zeta.
  refine (onmessage_advances_cursor initial 1
            {| modelTurn := Some {| parts := Some [Some (code_units "AAA=")] |};
       interrupted := false |}
            (code_units "AAA=") _ _ _ _).
  - reflexivity.
  - vm_compute. reflexivity.
  - reflexivity.
Defined.
End SessionRuns.

(** ** The copies of the decoding pipeline *)

Section Pipelines.

(** X16. The audio overview ([generateAudio], lines 131 and 132) and the
    studio hub ([playPodcast]) decode a payload as the live conversation
    does: their copies of the transport decoder return the same bytes, or
    throw together, and the three pipelines give the same segment. *)
Theorem segment_pipelines_agree (base64 : list N) :
  AudioOverview.decodeBase64 base64 = LiveInterface.decode base64
  ∧ StudioHub.decodeBase64 base64 = LiveInterface.decode base64
  ∧ AudioOverview.decode_overview base64 = LiveInterface.decode_segment base64
  ∧ StudioHub.playPodcast base64 = LiveInterface.decode_segment base64.
Proof.
  assert (Hcopy : ∀ bytes,
    AudioOverview.decodeAudioData bytes 24000 1 = LiveInterface.decodeAudioData bytes 24000 1
    ∧ StudioHub.decodeAudioData bytes 24000 1 = LiveInterface.decodeAudioData bytes 24000 1).
  { intros bytes.
    unfold AudioOverview.decodeAudioData, StudioHub.decodeAudioData,
      LiveInterface.decodeAudioData.
    destruct (Int16Array_of_buffer bytes) as [dataInt16|]; [|done]. cbn.
    destruct (WebAudio.createBuffer _ _ _) as [b|]; [|done]. cbn. done. }
  split_and!; [reflexivity | reflexivity | |].
  - unfold AudioOverview.decode_overview, LiveInterface.decode_segment.
    change (AudioOverview.decodeBase64 base64) with (LiveInterface.decode base64).
    destruct (LiveInterface.decode base64) as [bytes|]; [|done]. apply Hcopy.
  - unfold StudioHub.playPodcast, LiveInterface.decode_segment.
    change (StudioHub.decodeBase64 base64) with (LiveInterface.decode base64).
    destruct (LiveInterface.decode base64) as [bytes|]; [|done]. apply Hcopy.
Qed.
End Pipelines.

(** ** The player of the audio overview *)

Section Player.
Import WebAudio AudioOverview.
Local Open Scope Q_scope.

Lemma stop_active_lookup (active : option nat) (nodes : list PlayerNode) (k : nat) :
  stop_active active nodes !! k =
  if decide (active = Some k) then stop_node <$> nodes !! k else nodes !! k.
Proof.
  destruct active as [a|]; cbn [stop_active]; [|by rewrite decide_False].
  destruct (decide (a = k)) as [->|Hne].
  - by rewrite list_lookup_alter_eq, decide_True.
  - rewrite list_lookup_alter_ne by done. rewrite decide_False; [done|congruence].
Qed.

Lemma clear_progress_lookup (timer : option nat) (ivs : list Interval) (t : nat) :
  clear_progress timer ivs !! t =
  if decide (timer = Some t) then clear_interval <$> ivs !! t else ivs !! t.
Proof.
  destruct timer as [a|]; cbn [clear_progress]; [|by rewrite decide_False].
  destruct (decide (a = t)) as [->|Hne].
  - by rewrite list_lookup_alter_eq, decide_True.
  - rewrite list_lookup_alter_ne by done. rewrite decide_False; [done|congruence].
Qed.

Lemma stop_active_length (active : option nat) (nodes : list PlayerNode) :
  length (stop_active active nodes) = length nodes.
Proof. destruct active; cbn [stop_active]; [apply length_alter | done]. Qed.

Lemma clear_progress_length (timer : option nat) (ivs : list Interval) :
  length (clear_progress timer ivs) = length ivs.
Proof. destruct timer; cbn [clear_progress]; [apply length_alter | done]. Qed.

(** After [stop] on the active node and [clearInterval] on the current
    timer, no node sounds and no timer runs. *)
Lemma single_voice_silenced (st : Player) :
  single_voice st →
  (∀ k n, stop_active (activeSourceNodeRef st) (playerNodes st) !! k = Some n →
     startOffset n ≠ None → nodeStopped n = true)
  ∧ (∀ t iv, clear_progress (progressIntervalRef st) (intervals st) !! t = Some iv →
       cleared iv = true).
Proof.
  intros [Hnodes Htimers]. split.
  - intros k n Hn Hstarted. rewrite stop_active_lookup in Hn.
    destruct (decide (activeSourceNodeRef st = Some k)) as [Hk|Hk].
    + destruct (playerNodes st !! k) as [n0|]; [|done]. cbn in Hn.
      injection Hn as <-. unfold stop_node in *.
      destruct (startOffset n0) eqn:E; [done|]. by rewrite E in Hstarted.
    + destruct (nodeStopped n) eqn:E; [done|]. by specialize (Hnodes k n Hn Hstarted E).
  - intros t iv Hiv. rewrite clear_progress_lookup in Hiv.
    destruct (decide (progressIntervalRef st = Some t)) as [Ht|Ht].
    + destruct (intervals st !! t) as [iv0|]; [|done]. cbn in Hiv. by injection Hiv as <-.
    + destruct (cleared iv) eqn:E; [done|]. by specialize (Htimers t iv Hiv E).
Qed.

Lemma stopPlayback_single_voice (st : Player) :
  single_voice st → single_voice (stopPlayback st).
Proof.
  intros Hst. destruct (single_voice_silenced st Hst) as [Hnodes Htimers].
  split; cbn [stopPlayback playerNodes intervals activeSourceNodeRef progressIntervalRef].
  - intros k n Hn Hstarted Hstop. rewrite (Hnodes k n Hn Hstarted) in Hstop. done.
  - intros t iv Hiv Hlive. rewrite (Htimers t iv Hiv) in Hlive. done.
Qed.

Lemma startPlayback_single_voice (now : Q) (buffer : AudioBuffer) (fromOffset : Q)
    (st : Player) :
  single_voice st → single_voice (startPlayback now buffer fromOffset st).
Proof.
  intros Hst.
  destruct (single_voice_silenced (ensure_context st) Hst) as [Hnodes Htimers].
  cbn [ensure_context activeSourceNodeRef progressIntervalRef playerNodes intervals]
    in Hnodes, Htimers.
  unfold startPlayback. cbv zeta.
  cbn [stopPlayback ensure_context playerNodes intervals activeSourceNodeRef
       progressIntervalRef audioBuffer audioContextRef].
  rewrite stop_active_length.
  destruct (Qle_bool 0 fromOffset); split;
    cbn [playerNodes intervals activeSourceNodeRef progressIntervalRef].
  - intros k n Hn Hstarted Hstop.
    destruct (decide (k < length (playerNodes st))%nat) as [Hlt|Hge].
    + rewrite lookup_app_l in Hn by (by rewrite stop_active_length).
      rewrite (Hnodes k n Hn Hstarted) in Hstop. done.
    + apply lookup_lt_Some in Hn as Hk. rewrite length_app, stop_active_length in Hk.
      cbn in Hk. f_equal. lia.
  - rewrite clear_progress_length. intros t iv Hiv Hlive.
    destruct (decide (t < length (intervals st))%nat) as [Hlt|Hge].
    + rewrite lookup_app_l in Hiv by (by rewrite clear_progress_length).
      rewrite (Htimers t iv Hiv) in Hlive. done.
    + apply lookup_lt_Some in Hiv as Ht. rewrite length_app, clear_progress_length in Ht.
      cbn in Ht. f_equal. lia.
  - intros k n Hn Hstarted Hstop.
    destruct (decide (k < length (playerNodes st))%nat) as [Hlt|Hge].
    + rewrite lookup_app_l in Hn by (by rewrite stop_active_length).
      rewrite (Hnodes k n Hn Hstarted) in Hstop. done.
    + apply lookup_lt_Some in Hn as Hk. rewrite length_app, stop_active_length in Hk.
      cbn in Hk. f_equal. lia.
  - intros t iv Hiv Hlive. rewrite (Htimers t iv Hiv) in Hlive. done.
Qed.

Lemma player_handle_single_voice (ev : PlayerEvent) (st : Player) :
  single_voice st → single_voice (player_handle ev st).
Proof.
  intros Hst.
  destruct ev as [| now audioBase64 | now | now | now newTime | timer now | source now |];
    cbn [player_handle].
  - exact Hst.
  - unfold generateAudio_answer. destruct audioBase64 as [|c rest]; [exact Hst|].
    cbv zeta. destruct (decode_overview (c :: rest)) as [buffer|]; [|exact Hst].
    apply startPlayback_single_voice. exact Hst.
  - unfold pauseAudio. destruct (activeSourceNodeRef st) as [k|] eqn:Ek; [|exact Hst].
    destruct (audioContextRef st); [|exact Hst].
    destruct (single_voice_silenced st Hst) as [Hnodes Htimers].
    rewrite Ek in Hnodes.
    split; cbn [playerNodes intervals activeSourceNodeRef progressIntervalRef].
    + intros k' n Hn Hstarted Hstop. rewrite (Hnodes k' n Hn Hstarted) in Hstop. done.
    + intros t iv Hiv Hlive. rewrite (Htimers t iv Hiv) in Hlive. done.
  - unfold resumeAudio. destruct (audioBuffer st); [|exact Hst].
    by apply startPlayback_single_voice.
  - unfold handleSeek. destruct (audioBuffer st); [|exact Hst].
    by apply startPlayback_single_voice.
  - unfold tick. destruct (intervals st !! timer) as [iv|]; [|exact Hst].
    destruct (cleared iv); [exact Hst|]. destruct (audioContextRef st); exact Hst.
  - unfold onended. destruct (playerNodes st !! source) as [node|]; [|exact Hst].
    cbv zeta. destruct (audioContextRef st && _); exact Hst.
  - by apply stopPlayback_single_voice.
Qed.

Lemma player_run_snoc (events : list PlayerEvent) (ev : PlayerEvent) (st : Player) :
  player_run (events ++ [ev]) st = player_handle ev (player_run events st).
Proof. unfold player_run. by rewrite foldl_app. Qed.

(** X19. Whatever the user does, and whenever the timers and the nodes
    fire, the player has at most one node that sounds and at most one timer
    that runs: every node that was started and on which [stop] was not
    called is the one of [activeSourceNodeRef], and every timer that was not
    cleared is the one of [progressIntervalRef]. *)
Theorem player_single_voice (events : list PlayerEvent) :
  single_voice (player_run events mounted).
Proof.
  induction events as [|ev events IH] using rev_ind.
  - split; intros k n Hn; by cbn in Hn.
  - rewrite player_run_snoc. by apply player_handle_single_voice.
Qed.

(** X18. A second [pauseAudio] does nothing, whenever it comes: the time
    played is added to the offset once. *)
Theorem pauseAudio_idempotent (st : Player) (t t' : Q) :
  pauseAudio t' (pauseAudio t st) = pauseAudio t st.
Proof.
  unfold pauseAudio.
  destruct (activeSourceNodeRef st) as [k|] eqn:Ek;
    [destruct (audioContextRef st) eqn:Ec|]; cbn; rewrite ?Ek, ?Ec; reflexivity.
Qed.

(** X17. Pausing and resuming keeps the position, when the pause is not
    taken for the end of the buffer. [pauseAudio] when the clock reads [t1]
    stops the node and adds the time played since it was started to the
    offset. The handler [onended] of the stopped node then fires, when the
    clock reads [t]: it changes nothing when the time played, counted
    twice, is not within 0.1 s of the duration of the buffer (X20 has the
    other case). [resumeAudio], whenever it comes, then starts a new node of
    the same buffer from the offset, and a tick of its timer when the clock
    reads [t3] shows that offset plus the time played since, and the
    duration at most. *)
Theorem pause_resume_keeps_position (st : Player) (node : PlayerNode)
    (buffer : AudioBuffer) (source : nat) (t1 t t2 t3 : Q)
    (Hcontext : audioContextRef st = true)
    (Hactive : activeSourceNodeRef st = Some source)
    (Hnode : playerNodes st !! source = Some node)
    (Hbuffer : audioBuffer st = Some buffer)
    (Hposition : 0 <= offsetRef st + (t1 - startTimeRef st))
    (Hfar : tenth <= Qabs (t - startTimeRef st + (offsetRef st + (t1 - startTimeRef st))
                           - duration (nodeBuffer node))) :
  let position := offsetRef st + (t1 - startTimeRef st) in
  let paused := pauseAudio t1 st in
  let ended := onended source t paused in
  let resumed := resumeAudio t2 ended in
  offsetRef paused = position
  ∧ isPlaying paused = false
  ∧ activeSourceNodeRef paused = None
  ∧ playerNodes paused = alter stop_node source (playerNodes st)
  ∧ ended = paused
  ∧ player_run [Pause t1; NodeEnded source t; Resume t2] st = resumed
  ∧ playerNodes resumed =
      playerNodes paused ++
        [{| nodeBuffer := buffer; startOffset := Some position; nodeStopped := false |}]
  ∧ activeSourceNodeRef resumed = Some (length (playerNodes st))
  ∧ isPlaying resumed = true
  ∧ currentTime resumed = position
  ∧ currentTime (tick (length (intervals st)) t3 resumed)
    = Qmin (t3 - t2 + position) (duration buffer).
Proof.
  cbv zeta.
  change (player_run [Pause t1; NodeEnded source t; Resume t2] st)
    with (resumeAudio t2 (onended source t (pauseAudio t1 st))).
  assert (Hended : onended source t (pauseAudio t1 st) = pauseAudio t1 st).
  { unfold pauseAudio. rewrite Hactive, Hcontext. unfold onended.
    cbn [playerNodes stop_active startTimeRef offsetRef audioContextRef].
    rewrite list_lookup_alter_eq, Hnode. cbn [fmap option_fmap option_map andb].
    assert (Hsame : nodeBuffer (stop_node node) = nodeBuffer node)
      by (unfold stop_node; by destruct (startOffset node)).
    rewrite Hsame. apply Qle_bool_iff in Hfar. by rewrite Hfar. }
  rewrite Hended.
  unfold pauseAudio. rewrite Hactive, Hcontext.
  unfold resumeAudio. cbn [audioBuffer offsetRef]. rewrite Hbuffer.
  unfold startPlayback. cbv zeta.
  cbn [stopPlayback ensure_context playerNodes intervals activeSourceNodeRef
       progressIntervalRef audioBuffer audioContextRef offsetRef stop_active].
  apply Qle_bool_iff in Hposition. rewrite Hposition.
  cbn [offsetRef isPlaying activeSourceNodeRef playerNodes currentTime].
  rewrite !length_alter, clear_progress_length.
  split_and!; try reflexivity.
  unfold tick. cbn [intervals].
  rewrite lookup_app_r by (by rewrite !clear_progress_length).
  rewrite !clear_progress_length, Nat.sub_diag. cbn. reflexivity.
Qed.

Lemma pause_resume_keeps_position_witness :
  let buffer := {| numberOfChannels := 1; frames := 10; sampleRate := 1; channelData := [] |} in
  let st := startPlayback 2 buffer 0 (setAudioBuffer buffer mounted) in
  let position := offsetRef st + (5 - startTimeRef st) in
  let paused := pauseAudio 5 st in
  let ended := onended 0 5 paused in
  let resumed := resumeAudio 20 ended in
  offsetRef paused = position
  ∧ isPlaying paused = false
  ∧ activeSourceNodeRef paused = None
  ∧ playerNodes paused = alter stop_node 0%nat (playerNodes st)
  ∧ ended = paused
  ∧ player_run [Pause 5; NodeEnded 0 5; Resume 20] st = resumed
  ∧ playerNodes resumed =
      playerNodes paused ++
        [{| nodeBuffer := buffer; startOffset := Some position; nodeStopped := false |}]
  ∧ activeSourceNodeRef resumed = Some (length (playerNodes st))
  ∧ isPlaying resumed = true
  ∧ currentTime resumed = position
  ∧ currentTime (tick (length (intervals st)) 21 resumed)
    = Qmin (21 - 20 + position) (duration buffer).
Proof.
  cbv zeta.
  apply (pause_resume_keeps_position
           (startPlayback 2
              {| numberOfChannels := 1; frames := 10; sampleRate := 1; channelData := [] |}
              0
              (setAudioBuffer
                 {| numberOfChannels := 1; frames := 10; sampleRate := 1; channelData := [] |}
                 mounted))
           {| nodeBuffer :=
                {| numberOfChannels := 1; frames := 10; sampleRate := 1; channelData := [] |};
              startOffset := Some 0; nodeStopped := false |}
           {| numberOfChannels := 1; frames := 10; sampleRate := 1; channelData := [] |}
           0 5 5 20 21).
  - reflexivity.
  - reflexivity.
  - reflexivity.
  - reflexivity.
  - discriminate.
  - discriminate.
Defined.
End Player.

(** ** The end of a node of the player *)

Section PlayerEnds.
Import WebAudio AudioOverview.
Local Open Scope Q_scope.

Lemma below_tenth (x : Q) : x < tenth → Qle_bool tenth x = false.
Proof.
  intros Hlt. destruct (Qle_bool tenth x) eqn:E; [|done].
  apply Qle_bool_iff in E. by apply Qle_not_lt in E.
Qed.

Lemma not_below_tenth (x : Q) : tenth <= x → Qle_bool tenth x = true.
Proof. apply Qle_bool_iff. Qed.

(** X20. The handler [onended] of a node reads the refs when it fires.
    After [pauseAudio] the offset holds the time played and the start time
    is still the one of the run, so that the handler of the node that the
    pause stopped counts the time played in this run twice. When that sum is
    within 0.1 s of the duration of the buffer, the pause is taken for the
    end of the buffer and the position is put back to 0; otherwise the
    handler changes nothing. *)
Theorem pause_then_ended (st : Player) (node : PlayerNode) (source : nat) (t1 t : Q)
    (Hcontext : audioContextRef st = true)
    (Hactive : activeSourceNodeRef st = Some source)
    (Hnode : playerNodes st !! source = Some node) :
  let position := offsetRef st + (t1 - startTimeRef st) in
  let paused := pauseAudio t1 st in
  let ended := onended source t paused in
  let drift := Qabs (t - startTimeRef st + position - duration (nodeBuffer node)) in
  offsetRef paused = position
  ∧ (drift < tenth →
       offsetRef ended = 0 ∧ currentTime ended = 0 ∧ isPlaying ended = false)
  ∧ (tenth <= drift → ended = paused).
Proof.
  cbv zeta. unfold pauseAudio. rewrite Hactive, Hcontext.
  unfold onended. cbn [playerNodes stop_active startTimeRef offsetRef audioContextRef].
  rewrite list_lookup_alter_eq, Hnode.
  cbn [fmap option_fmap option_map andb].
  assert (Hbuffer : nodeBuffer (stop_node node) = nodeBuffer node)
    by (unfold stop_node; by destruct (startOffset node)).
  rewrite Hbuffer. split_and!; [reflexivity | |].
  - intros Hlt. rewrite (below_tenth _ Hlt). by split_and!.
  - intros Hge. by rewrite (not_below_tenth _ Hge).
Qed.

Lemma pause_then_ended_witness :
  let buffer := {| numberOfChannels := 1; frames := 10; sampleRate := 1; channelData := [] |} in
  let st := startPlayback 2 buffer 0 (setAudioBuffer buffer mounted) in
  let node := {| nodeBuffer := buffer; startOffset := Some 0; nodeStopped := false |} in
  let position := offsetRef st + (7 - startTimeRef st) in
  let paused := pauseAudio 7 st in
  let ended := onended 0 7 paused in
  let drift := Qabs (7 - startTimeRef st + position - duration (nodeBuffer node)) in
  (offsetRef paused = position
   ∧ (drift < tenth →
        offsetRef ended = 0 ∧ currentTime ended = 0 ∧ isPlaying ended = false)
   ∧ (tenth <= drift → ended = paused))
  ∧ position == 5 ∧ drift < tenth.
Proof.
  cbv zeta. split; [|split; reflexivity].
  apply (pause_then_ended
           (startPlayback 2
              {| numberOfChannels := 1; frames := 10; sampleRate := 1; channelData := [] |}
              0
              (setAudioBuffer
                 {| numberOfChannels := 1; frames := 10; sampleRate := 1; channelData := [] |}
                 mounted))
           {| nodeBuffer :=
                {| numberOfChannels := 1; frames := 10; sampleRate := 1; channelData := [] |};
              startOffset := Some 0; nodeStopped := false |}
           0 7 7).
  - reflexivity.
  - reflexivity.
  - reflexivity.
Defined.

(** X21. When a node started by [startPlayback] reaches the end of its
    buffer (its handler fires within 0.1 s of the time when the offset plus
    the time played is the duration), the handler puts the flag down and the
    position and the offset to 0, so that [resumeAudio] starts again from
    the beginning. It does not clear the timer: the next tick, when the
    clock reads [t'], puts the position shown at the time since the start of
    the run, and the duration at most. *)
Theorem natural_end_resets (st : Player) (now : Q) (buffer : AudioBuffer)
    (fromOffset t : Q)
    (Hoffset : 0 <= fromOffset)
    (Hend : Qabs (t - now + fromOffset - duration buffer) < tenth) :
  let started := startPlayback now buffer fromOffset st in
  let source := length (playerNodes st) in
  let timer := length (intervals st) in
  let ended := onended source t started in
  isPlaying started = true
  ∧ isPlaying ended = false
  ∧ currentTime ended = 0
  ∧ offsetRef ended = 0
  ∧ playerNodes ended = playerNodes started
  ∧ intervals ended !! timer = Some {| intervalBuffer := buffer; cleared := false |}
  ∧ (∀ t', currentTime (tick timer t' ended) = Qmin (t' - now + 0) (duration buffer))
  ∧ (∀ t', audioBuffer st = Some buffer →
       playerNodes (resumeAudio t' ended) !! S source
       = Some {| nodeBuffer := buffer; startOffset := Some 0; nodeStopped := false |}).
Proof.
  cbv zeta. unfold startPlayback. cbv zeta.
  apply Qle_bool_iff in Hoffset. rewrite Hoffset.
  cbn [stopPlayback ensure_context playerNodes intervals activeSourceNodeRef
       progressIntervalRef audioBuffer audioContextRef isPlaying].
  rewrite stop_active_length, clear_progress_length.
  unfold onended. cbn [playerNodes startTimeRef offsetRef audioContextRef].
  rewrite lookup_app_r by (by rewrite stop_active_length).
  rewrite stop_active_length, Nat.sub_diag. cbn [lookup list_lookup nodeBuffer andb].
  rewrite (below_tenth _ Hend). cbn [negb].
  cbn [isPlaying currentTime offsetRef playerNodes intervals].
  assert (Htimer :
    (clear_progress (progressIntervalRef st) (intervals st)
       ++ [{| intervalBuffer := buffer; cleared := false |}]) !! length (intervals st)
    = Some {| intervalBuffer := buffer; cleared := false |}).
  { rewrite lookup_app_r by (by rewrite clear_progress_length).
    by rewrite clear_progress_length, Nat.sub_diag. }
  split_and!; try reflexivity.
  - exact Htimer.
  - intros t'. unfold tick. cbn [intervals]. rewrite Htimer. reflexivity.
  - intros t' Hbuffer. unfold resumeAudio. cbn [audioBuffer]. rewrite Hbuffer.
    unfold startPlayback. cbv zeta. cbn [offsetRef].
    change (Qle_bool 0 0) with true. cbv iota.
    cbn [stopPlayback ensure_context playerNodes intervals activeSourceNodeRef
         progressIntervalRef audioBuffer audioContextRef isPlaying stop_active].
    rewrite lookup_app_r by (rewrite length_alter, length_app, stop_active_length; cbn; lia).
    rewrite length_alter, length_app, stop_active_length. cbn [length].
    replace (S (length (playerNodes st)) - (length (playerNodes st) + 1))%nat with 0%nat by lia.
    reflexivity.
Qed.

Lemma natural_end_resets_witness :
  let buffer := {| numberOfChannels := 1; frames := 10; sampleRate := 1; channelData := [] |} in
  let st := setAudioBuffer buffer mounted in
  let started := startPlayback 2 buffer 4 st in
  let source := length (playerNodes st) in
  let timer := length (intervals st) in
  let ended := onended source 8 started in
  isPlaying started = true
  ∧ isPlaying ended = false
  ∧ currentTime ended = 0
  ∧ offsetRef ended = 0
  ∧ playerNodes ended = playerNodes started
  ∧ intervals ended !! timer = Some {| intervalBuffer := buffer; cleared := false |}
  ∧ (∀ t', currentTime (tick timer t' ended) = Qmin (t' - 2 + 0) (duration buffer))
  ∧ (∀ t', audioBuffer st = Some buffer →
       playerNodes (resumeAudio t' ended) !! S source
       = Some {| nodeBuffer := buffer; startOffset := Some 0; nodeStopped := false |}).
Proof.
  cbv zeta.
  apply (natural_end_resets
           (setAudioBuffer
              {| numberOfChannels := 1; frames := 10; sampleRate := 1; channelData := [] |}
              mounted)
           2 {| numberOfChannels := 1; frames := 10; sampleRate := 1; channelData := [] |}
           4 8).
  - discriminate.
  - reflexivity.
Defined.
End PlayerEnds.

(** ** The text of a time *)

Section FormatTime.
Import AudioOverview.

Lemma Qfloor_div_60 (x : Q) : Qfloor (x / 60) = (Qfloor x / 60)%Z.
Proof.
  destruct x as [a b]. unfold Qfloor, Qdiv, Qmult, Qinv. cbn [Qnum Qden].
  rewrite Z.mul_1_r, Pos2Z.inj_mul. symmetry. apply Z.div_div; lia.
Qed.

Lemma Qfloor_minus_Z (x : Q) (k : Z) : Qfloor (x - 60 * inject_Z k) = (Qfloor x - 60 * k)%Z.
Proof.
  destruct x as [a b]. unfold Qfloor, Qminus, Qplus, Qopp, Qmult, inject_Z.
  cbn [Qnum Qden]. rewrite !Pos.mul_1_r, Z.mul_1_r.
  replace (a + - (60 * k) * Z.pos b)%Z with (a + (- (60 * k)) * Z.pos b)%Z by lia.
  rewrite Z.div_add by lia. lia.
Qed.

Lemma remainder_60 (seconds : Q) :
  (0 <= seconds)%Q → Qfloor (remainder seconds 60) = (Qfloor seconds mod 60)%Z.
Proof.
  intros Hpos. unfold remainder. cbv zeta.
  assert (Hquot : Z.quot (Qnum (seconds / 60)) (Z.pos (Qden (seconds / 60)))
                  = (Qfloor seconds / 60)%Z).
  { rewrite <- Qfloor_div_60. unfold Qfloor.
    destruct (seconds / 60)%Q as [a b] eqn:E. cbn [Qnum Qden].
    apply Z.quot_div_nonneg; [|lia].
    assert (Hq : (0 <= seconds / 60)%Q).
    { apply Qle_shift_div_l; [reflexivity|]. by rewrite Qmult_0_l. }
    rewrite E in Hq. unfold Qle in Hq. cbn [Qnum Qden] in Hq. lia. }
  rewrite Hquot, Qfloor_minus_Z. lia.
Qed.

Lemma two_digits (secs : Z) :
  (0 ≤ secs < 60)%Z →
  padStart 2 48 <$> Number_toString secs
  = Some [Z.to_N (48 + secs / 10); Z.to_N (48 + secs mod 10)].
Proof.
  intros Hsecs.
  pose (test := λ z : Z,
    bool_decide (padStart 2 48 <$> Number_toString z
                 = Some [Z.to_N (48 + z / 10); Z.to_N (48 + z mod 10)])).
  assert (Hall : range_all 60 0 test = true) by (vm_compute; reflexivity).
  pose proof (range_all_spec _ _ _ Hall secs ltac:(lia)) as Ht.
  unfold test in Ht. by apply bool_decide_eq_true in Ht.
Qed.

(** X22. [formatTime] of a time that is not negative, and below 2^53,
    writes the whole minutes with all their digits, then a colon, then the
    whole seconds left as two digits, the first of which is 0 below ten
    seconds: minutes times 60 plus seconds is the whole number of seconds
    of the time, and the minutes are not cut into hours. *)
Theorem formatTime_minutes_seconds (seconds : Q)
    (Hseconds : (0 <= seconds)%Q)
    (Hbound : (seconds < inject_Z (2 ^ 53))%Q) :
  let mins := (Qfloor seconds / 60)%Z in
  let secs := (Qfloor seconds mod 60)%Z in
  formatTime seconds
  = Some (code_units (NilZero.string_of_int (Z.to_int mins)) ++ code_units ":"
            ++ [Z.to_N (48 + secs / 10); Z.to_N (48 + secs mod 10)])
  ∧ (60 * mins + secs = Qfloor seconds)%Z
  ∧ (0 ≤ mins < 2 ^ 53)%Z
  ∧ (0 ≤ secs / 10 ≤ 5 ∧ 0 ≤ secs mod 10 ≤ 9)%Z.
Proof.
  cbv zeta.
  assert (Hwhole : (0 ≤ Qfloor seconds)%Z).
  { change 0%Z with (Qfloor 0). by apply Qfloor_resp_le. }
  assert (Hbelow : (Qfloor seconds < 2 ^ 53)%Z).
  { rewrite Zlt_Qlt. eapply Qle_lt_trans; [apply Qfloor_le | exact Hbound]. }
  assert (Hmins : (0 ≤ Qfloor seconds / 60 < 2 ^ 53)%Z).
  { split; [apply Z.div_pos; lia|].
    apply Z.le_lt_trans with (Qfloor seconds); [|exact Hbelow].
    apply Z.div_le_upper_bound; lia. }
  unfold formatTime.
  assert (Hin : Qle_bool (inject_Z (2 ^ 53)) seconds = false).
  { destruct (Qle_bool (inject_Z (2 ^ 53)) seconds) eqn:E; [|done].
    apply Qle_bool_iff in E. by apply Qle_not_lt in E. }
  apply Qle_bool_iff in Hseconds as Hpos. rewrite Hpos, Hin. cbn [negb orb]. cbv zeta.
  apply Qle_bool_iff in Hpos.
  rewrite Qfloor_div_60, remainder_60 by done.
  pose proof (two_digits (Qfloor seconds mod 60) ltac:(lia)) as Hdigits.
  unfold Number_toString in *.
  replace (Z.abs (Qfloor seconds / 60) <? 2 ^ 53)%Z with true
    by (symmetry; apply Z.ltb_lt; lia).
  cbn [mbind option_bind].
  destruct (Z.abs (Qfloor seconds mod 60) <? 2 ^ 53)%Z; [|done].
  cbn [fmap option_fmap option_map] in Hdigits. injection Hdigits as Hdigits.
  cbn [mbind option_bind]. rewrite Hdigits.
  split_and!; [reflexivity | lia..].
Qed.

Lemma formatTime_minutes_seconds_witness :
  let seconds := (7265 # 2)%Q in
  let mins := (Qfloor seconds / 60)%Z in
  let secs := (Qfloor seconds mod 60)%Z in
  (formatTime seconds
   = Some (code_units (NilZero.string_of_int (Z.to_int mins)) ++ code_units ":"
             ++ [Z.to_N (48 + secs / 10); Z.to_N (48 + secs mod 10)])
   ∧ (60 * mins + secs = Qfloor seconds)%Z
   ∧ (0 ≤ mins < 2 ^ 53)%Z
   ∧ (0 ≤ secs / 10 ≤ 5 ∧ 0 ≤ secs mod 10 ≤ 9)%Z)
  ∧ formatTime seconds = Some (code_units "60:32").
Proof.
  cbv zeta. split; [|vm_compute; reflexivity].
  apply (formatTime_minutes_seconds (7265 # 2)).
  - discriminate.
  - reflexivity.
Defined.
End FormatTime.

(** ** An overview that could not be generated *)

Section Regeneration.
Import WebAudio AudioOverview.

(** X28. When [generateAudio] gets no audio from the service, or audio
    that does not decode, the component is left without a buffer, so that
    [resumeAudio] and [handleSeek] do nothing; the node that was playing is
    not stopped and its timer is not cleared. *)
Theorem failed_regeneration_keeps_playing (st : Player) (now : Q) (audioBase64 : list N)
    (Hfailed : audioBase64 = [] ∨ decode_overview audioBase64 = None) :
  let st' := generateAudio_answer now audioBase64 (generateAudio_begin st) in
  audioBuffer st' = None
  ∧ playerNodes st' = playerNodes st
  ∧ intervals st' = intervals st
  ∧ activeSourceNodeRef st' = activeSourceNodeRef st
  ∧ progressIntervalRef st' = progressIntervalRef st
  ∧ isPlaying st' = isPlaying st
  ∧ (∀ t, resumeAudio t st' = st')
  ∧ (∀ t newTime, handleSeek t newTime st' = st').
Proof.
  cbv zeta.
  assert (Hst' : generateAudio_answer now audioBase64 (generateAudio_begin st)
                 = generateAudio_begin st
                 ∨ generateAudio_answer now audioBase64 (generateAudio_begin st)
                   = ensure_context (generateAudio_begin st)).
  { unfold generateAudio_answer. destruct audioBase64 as [|c rest]; [by left|].
    destruct Hfailed as [|Hfailed]; [done|]. cbv zeta. rewrite Hfailed. by right. }
  destruct Hst' as [-> | ->]; by split_and!.
Qed.

Lemma failed_regeneration_keeps_playing_witness :
  let buffer := {| numberOfChannels := 1; frames := 10; sampleRate := 1; channelData := [] |} in
  let st := startPlayback 2 buffer 0 (setAudioBuffer buffer mounted) in
  let st' := generateAudio_answer 3 (code_units "AAAA") (generateAudio_begin st) in
  audioBuffer st' = None
  ∧ playerNodes st' = playerNodes st
  ∧ intervals st' = intervals st
  ∧ activeSourceNodeRef st' = activeSourceNodeRef st
  ∧ progressIntervalRef st' = progressIntervalRef st
  ∧ isPlaying st' = isPlaying st
  ∧ (∀ t, resumeAudio t st' = st')
  ∧ (∀ t newTime, handleSeek t newTime st' = st').
Proof.
  cbv zeta.
  apply (failed_regeneration_keeps_playing
           (startPlayback 2
              {| numberOfChannels := 1; frames := 10; sampleRate := 1; channelData := [] |}
              0
              (setAudioBuffer
                 {| numberOfChannels := 1; frames := 10; sampleRate := 1; channelData := [] |}
                 mounted))
           3 (code_units "AAAA")).
  right. vm_compute. reflexivity.
Defined.
End Regeneration.

(** ** The notes component *)

Section Notes.
Import NotesInterface.

Lemma in_folder_spec (id0 : string) (f : option string) :
  in_folder id0 f = true ↔ f = Some id0.
Proof.
  destruct f as [s|]; cbn [in_folder]; [|done].
  destruct (String.eqb_spec s id0) as [->|Hne]; split; try done. by intros [= ->].
Qed.

(** X23. After [deleteFolder] with the confirmation, no folder has the
    identifier, no note refers to it, and the folder shown is not it; the
    notes are all there, in their order, and each is as it was but for its
    folder, which is none when it was the one deleted. *)
Theorem deleteFolder_uncategorizes (st : State) (id0 : string) :
  let st' := deleteFolder id0 true st in
  Forall (λ f, folder_id f ≠ id0) (folders st')
  ∧ Forall (λ n, folderId n ≠ Some id0) (notes st')
  ∧ Forall2 (λ n n',
       id n' = id n ∧ title n' = title n ∧ content n' = content n
       ∧ tags n' = tags n ∧ dateCreated n' = dateCreated n ∧ summary n' = summary n
       ∧ folderId n' = (if decide (folderId n = Some id0) then None else folderId n))
      (notes st) (notes st')
  ∧ (id0 ≠ "all"%string → activeFolderId st' ≠ id0)
  ∧ activeNote st' = activeNote st.
Proof.
  cbv zeta. cbn [deleteFolder folders notes activeFolderId activeNote].
  split_and!; [| | | |reflexivity].
  - apply Forall_forall. intros f Hf. apply list_elem_of_In, filter_In in Hf as [_ Hf].
    apply negb_true_iff in Hf. by destruct (String.eqb_spec (folder_id f) id0).
  - apply Forall_fmap, Forall_forall. intros n _. cbn.
    destruct (in_folder id0 (folderId n)) eqn:E; [done|].
    intros Heq. apply in_folder_spec in Heq. congruence.
  - apply Forall2_fmap_r, Forall_Forall2_diag, Forall_forall. intros n _.
    unfold compose. cbn beta.
    destruct (in_folder id0 (folderId n)) eqn:E.
    + apply in_folder_spec in E. rewrite decide_True by done. by split_and!.
    + rewrite decide_False; [by split_and!|].
      intros Heq. apply in_folder_spec in Heq. congruence.
  - intros Hall. destruct (String.eqb_spec (activeFolderId st) id0); congruence.
Qed.

(** X24. [deleteFolder] clears the folder in the notes of the list, and
    not in the note that is open in the editor. When the open note was in
    the deleted folder, the next [updateActiveNote] that does not give a
    folder writes the open note over the notes of the list that have its
    identifier, with the folder that it still has: the note of the list is
    again in a folder that no longer exists. *)
Theorem deleteFolder_stale_activeNote (st : State) (n : Note) (id0 : string)
    (updates : NoteUpdates)
    (Hopen : activeNote st = Some n)
    (Hfolder : folderId n = Some id0)
    (Hupdates : new_folderId updates = None) :
  let st1 := deleteFolder id0 true st in
  let st2 := updateActiveNote (activeNote st1) updates st1 in
  Forall (λ m, folderId m ≠ Some id0) (notes st1)
  ∧ activeNote st1 = Some n
  ∧ (∀ m, m ∈ notes st2 → id m = id n → folderId m = Some id0)
  ∧ (n ∈ notes st → ∃ m, m ∈ notes st2 ∧ id m = id n ∧ folderId m = Some id0)
  ∧ Forall (λ f, folder_id f ≠ id0) (folders st2).
Proof.
  cbv zeta.
  assert (Hnotes1 : Forall (λ m, folderId m ≠ Some id0) (notes (deleteFolder id0 true st))).
  { cbn [deleteFolder notes].
    apply Forall_fmap, Forall_forall. intros m _. cbn.
    destruct (in_folder id0 (folderId m)) eqn:E; [done|].
    intros Heq. apply in_folder_spec in Heq. congruence. }
  assert (Hfolders : Forall (λ f, folder_id f ≠ id0) (folders (deleteFolder id0 true st))).
  { cbn [deleteFolder folders].
    apply Forall_forall. intros f Hf. apply list_elem_of_In, filter_In in Hf as [_ Hf].
    apply negb_true_iff in Hf. by destruct (String.eqb_spec (folder_id f) id0). }
  assert (Hupdated : folderId (spread n updates) = Some id0)
    by (cbn [spread folderId]; rewrite Hupdates; exact Hfolder).
  unfold updateActiveNote.
  change (activeNote (deleteFolder id0 true st)) with (activeNote st). rewrite Hopen.
  cbv zeta. cbn [notes folders activeNote].
  change (id (spread n updates)) with (id n).
  split_and!; [exact Hnotes1 | reflexivity | | | exact Hfolders].
  - intros m Hm Hid. apply list_elem_of_fmap in Hm as (m0 & -> & Hm0).
    destruct (String.eqb_spec (id m0) (id n)) as [_|Hne]; [exact Hupdated | done].
  - intros Hin. exists (spread n updates). split_and!; [|reflexivity|exact Hupdated].
    apply list_elem_of_fmap.
    exists (if in_folder id0 (folderId n) then clear_folder n else n). split.
    + assert (Hid : id (if in_folder id0 (folderId n) then clear_folder n else n) = id n)
        by (by destruct (in_folder id0 (folderId n))).
      rewrite Hid, String.eqb_refl. reflexivity.
    + cbn [deleteFolder notes]. apply list_elem_of_fmap. by exists n.
Qed.

Lemma deleteFolder_stale_activeNote_witness :
  let n := {| id := "1"; title := "draft"; content := ""; tags := [];
              dateCreated := 1; folderId := Some "7"%string; summary := None |} in
  let st := {| notes := [n]; folders := [{| folder_id := "7"; name := "work";
                                            folder_dateCreated := 7; color := None |}];
               activeNote := Some n; activeFolderId := "all"; tagInput := "";
               viewState := ViewEditor |} in
  let updates := {| new_title := Some "final"%string; new_content := None;
                    new_tags := None; new_folderId := None; new_summary := None |} in
  let st1 := deleteFolder "7" true st in
  let st2 := updateActiveNote (activeNote st1) updates st1 in
  Forall (λ m, folderId m ≠ Some "7"%string) (notes st1)
  ∧ activeNote st1 = Some n
  ∧ (∀ m, m ∈ notes st2 → id m = id n → folderId m = Some "7"%string)
  ∧ (n ∈ notes st → ∃ m, m ∈ notes st2 ∧ id m = id n ∧ folderId m = Some "7"%string)
  ∧ Forall (λ f, folder_id f ≠ "7"%string) (folders st2).
Proof.
  cbv zeta.
  apply (deleteFolder_stale_activeNote
           {| notes := [{| id := "1"; title := "draft"; content := ""; tags := [];
                           dateCreated := 1; folderId := Some "7"%string;
                           summary := None |}];
              folders := [{| folder_id := "7"; name := "work";
                             folder_dateCreated := 7; color := None |}];
              activeNote := Some {| id := "1"; title := "draft"; content := ""; tags := [];
                                    dateCreated := 1; folderId := Some "7"%string;
                                    summary := None |};
              activeFolderId := "all"; tagInput := ""; viewState := ViewEditor |}
           {| id := "1"; title := "draft"; content := ""; tags := [];
              dateCreated := 1; folderId := Some "7"%string; summary := None |}
           "7"
           {| new_title := Some "final"%string; new_content := None;
              new_tags := None; new_folderId := None; new_summary := None |}).
  - reflexivity.
  - reflexivity.
  - reflexivity.
Defined.

(** X25. [createNote] puts the new note at the head of the list and opens
    it in the editor, and the new note is at the head of the notes shown,
    whatever is shown: all the notes, the notes without a folder, or the
    notes of a folder, whose identifier the new note then has. *)
Theorem createNote_is_shown (st : State) (now later : Z) :
  let st' := createNote now later st in
  ∃ newNote,
    activeNote st' = Some newNote
    ∧ notes st' = newNote :: notes st
    ∧ filteredNotes st' = newNote :: filteredNotes st
    ∧ viewState st' = ViewEditor
    ∧ dateCreated newNote = later
    ∧ tags newNote = []
    ∧ (folderId newNote = None ∨ folderId newNote = Some (activeFolderId st)).
Proof.
  cbv zeta. eexists. split; [reflexivity|].
  unfold filteredNotes.
  cbn [createNote notes activeFolderId viewState dateCreated tags folderId].
  destruct (String.eqb_spec (activeFolderId st) "all") as [Hall|Hall].
  { cbn [negb andb]. by split_and!; auto. }
  destruct (String.eqb_spec (activeFolderId st) "none") as [Hnone|Hnone].
  { cbn [negb andb List.filter no_folder folderId]. by split_and!; auto. }
  cbn [negb andb List.filter in_folder folderId]. rewrite String.eqb_refl.
  by split_and!; auto.
Qed.

Lemma update_lists_open (n updated : Note) (l : list Note) :
  id updated = id n → n ∈ l →
  updated ∈ map (λ m, if String.eqb (id m) (id updated) then updated else m) l.
Proof.
  intros Hid Hin. apply list_elem_of_fmap. exists n. split; [|done].
  by rewrite Hid, String.eqb_refl.
Qed.

(** An update made with a note of the list opens a note of the list. *)
Lemma updateActiveNote_listed (active : Note) (updates : NoteUpdates) (st : State) :
  active ∈ notes st → listed (updateActiveNote (Some active) updates st).
Proof.
  intros Hin n Hn. cbn in Hn. injection Hn as <-. cbn [updateActiveNote notes].
  by apply (update_lists_open active).
Qed.

Lemma update_absent (updated : Note) (l : list Note) :
  Forall (λ m, id m ≠ id updated) l →
  map (λ m, if String.eqb (id m) (id updated) then updated else m) l = l.
Proof.
  induction 1 as [|m l Hm _ IH]; [done|]. cbn [map]. rewrite IH.
  by destruct (String.eqb_spec (id m) (id updated)).
Qed.

(** X26. The note that is open in the editor is a note of the list, and
    stays one through [createNote], through [updateActiveNote] called by a
    handler of the last render, [deleteNote], [addTag], [handleFolderSelect]
    and a [deleteFolder] that is not confirmed, and through the late update
    of [handleSummarize] when the note that it summarised is still in the
    list. When that note was deleted while the service was answering, the
    late update opens it again, with its summary, and does not put it back
    in the list: the open note is then not a note of the list. *)
Theorem open_note_stays_listed (st : State) (now later : Z) (updates : NoteUpdates)
    (id0 : string) (confirmed enter : bool) (trim toLowerCase : string → string)
    (summary : option string)
    (Hlisted : listed st) :
  listed (createNote now later st)
  ∧ listed (updateActiveNote (activeNote st) updates st)
  ∧ listed (deleteNote id0 confirmed st)
  ∧ listed (addTag trim toLowerCase enter st)
  ∧ listed (handleFolderSelect id0 st)
  ∧ listed (deleteFolder id0 false st)
  ∧ (∀ active, active ∈ notes st → listed (handleSummarize_answer active summary st))
  ∧ (∀ active text,
       Forall (λ m, id m ≠ id active) (notes st) → text ≠ ""%string →
       let st' := handleSummarize_answer active (Some text) st in
       activeNote st' = Some (spread active (summary_only text))
       ∧ notes st' = notes st
       ∧ ¬ listed st').
Proof.
  split_and!.
  - intros n Hn. cbn in Hn. injection Hn as <-. cbn [createNote notes]. apply list_elem_of_here.
  - destruct (activeNote st) as [active|] eqn:Eactive; [|exact Hlisted].
    apply updateActiveNote_listed. by apply Hlisted.
  - unfold deleteNote. destruct confirmed; [|exact Hlisted].
    intros n Hn. cbn [activeNote] in Hn. cbn [notes].
    destruct (activeNote st) as [active|] eqn:Eactive; [|done].
    destruct (String.eqb_spec (id active) id0) as [|Hne]; [done|].
    injection Hn as <-. apply list_elem_of_In, filter_In. split.
    + apply list_elem_of_In. by apply Hlisted.
    + apply negb_true_iff. by destruct (String.eqb_spec (id active) id0).
  - unfold addTag. destruct (activeNote st) as [active|] eqn:Eactive; [|exact Hlisted].
    destruct (enter && _); [|exact Hlisted]. cbv zeta.
    destruct (existsb _ _); [exact Hlisted|].
    assert (Hin : active ∈ notes st) by (by apply Hlisted).
    exact (updateActiveNote_listed active
             (tags_only (tags active ++ [toLowerCase (trim (tagInput st))])) st Hin).
  - exact Hlisted.
  - exact Hlisted.
  - intros active Hin. unfold handleSummarize_answer.
    destruct summary as [text|]; [|exact Hlisted].
    destruct (String.eqb text ""); [exact Hlisted|].
    by apply updateActiveNote_listed.
  - intros active text Habsent Htext. cbv zeta. unfold handleSummarize_answer.
    destruct (String.eqb_spec text "") as [|_]; [done|].
    cbn [updateActiveNote activeNote notes].
    rewrite update_absent by exact Habsent.
    split_and!; [reflexivity | reflexivity |].
    intros Hl. specialize (Hl _ eq_refl). cbn [notes] in Hl.
    rewrite Forall_forall in Habsent. by apply (Habsent _ Hl).
Qed.

Lemma open_note_stays_listed_witness :
  let st := createNote 5 5 {| notes := []; folders := []; activeNote := None;
                              activeFolderId := "all"; tagInput := " Draft ";
                              viewState := ViewFolders |} in
  listed (createNote 6 7 st)
  ∧ listed (updateActiveNote (activeNote st) (tags_only ["a"%string]) st)
  ∧ listed (deleteNote "5" true st)
  ∧ listed (addTag (λ s, s) (λ s, s) true st)
  ∧ listed (handleFolderSelect "5" st)
  ∧ listed (deleteFolder "5" false st)
  ∧ (∀ active, active ∈ notes st →
       listed (handleSummarize_answer active (Some "short"%string) st))
  ∧ (∀ active text,
       Forall (λ m, id m ≠ id active) (notes st) → text ≠ ""%string →
       let st' := handleSummarize_answer active (Some text) st in
       activeNote st' = Some (spread active (summary_only text))
       ∧ notes st' = notes st
       ∧ ¬ listed st').
Proof.
  cbv zeta.
  apply (open_note_stays_listed
           (createNote 5 5 {| notes := []; folders := []; activeNote := None;
                              activeFolderId := "all"; tagInput := " Draft ";
                              viewState := ViewFolders |})
           6 7 (tags_only ["a"%string]) "5" true true (λ s, s) (λ s, s)
           (Some "short"%string)).
  intros n Hn. cbn in Hn. injection Hn as <-. apply list_elem_of_here.
Defined.

Lemma existsb_eqb_false (tag : string) (l : list string) :
  existsb (String.eqb tag) l = false → tag ∉ l.
Proof.
  intros Hex Hin. apply list_elem_of_In in Hin.
  assert (Htrue : existsb (String.eqb tag) l = true).
  { apply existsb_exists. exists tag. split; [done | apply String.eqb_refl]. }
  congruence.
Qed.

Lemma existsb_eqb_true (tag : string) (l : list string) :
  existsb (String.eqb tag) l = true → tag ∈ l.
Proof.
  intros Hex. apply existsb_exists in Hex as (x & Hx & Heq).
  apply String.eqb_eq in Heq as ->. by apply list_elem_of_In.
Qed.

(** X27. [addTag] on an open note, with [tag] the text typed, trimmed and
    in lower case. When the key is not Enter, or the trimmed text is empty,
    nothing changes. Otherwise the text typed is cleared and, when the tag
    is among the tags of the note, nothing else changes; when it is not, it
    is added after them in the open note, and the notes of the list that
    have the identifier of the open note are replaced by it. So a tag is
    never written twice: tags that are all different stay so, whatever
    [trim] and [toLowerCase] do. *)
Theorem addTag_no_duplicate (trim toLowerCase : string → string) (enter : bool)
    (st : State) (n : Note)
    (Hopen : activeNote st = Some n)
    (Hdistinct : NoDup (tags n)) :
  let tag := toLowerCase (trim (tagInput st)) in
  let asked := enter && negb (String.eqb (trim (tagInput st)) "") in
  let tagged := spread n (tags_only (tags n ++ [tag])) in
  let st' := addTag trim toLowerCase enter st in
  (asked = false → st' = st)
  ∧ (asked = true → tag ∈ tags n → st' = setTagInput "" st)
  ∧ (asked = true → (tag ∉ tags n) →
       activeNote st' = Some tagged
       ∧ tags tagged = tags n ++ [tag]
       ∧ notes st' = map (λ m, if String.eqb (id m) (id n) then tagged else m) (notes st)
       ∧ tagInput st' = ""%string
       ∧ folders st' = folders st
       ∧ activeFolderId st' = activeFolderId st)
  ∧ ∃ n', activeNote st' = Some n' ∧ id n' = id n ∧ NoDup (tags n').
Proof.
  cbv zeta. unfold addTag. rewrite Hopen.
  set (tag := toLowerCase (trim (tagInput st))).
  destruct (enter && negb (String.eqb (trim (tagInput st)) "")).
  - cbv zeta. destruct (existsb (String.eqb tag) (tags n)) eqn:Eex.
    + apply existsb_eqb_true in Eex. split_and!; [done | done | done |].
      exists n. by split_and!.
    + apply existsb_eqb_false in Eex. split_and!; [done | done | |].
      * intros _ _. by split_and!.
      * eexists. split; [reflexivity|]. split; [reflexivity|].
        cbn [spread tags_only tags new_tags default].
        apply NoDup_app. split_and!; [done | | apply NoDup_singleton].
        intros x Hx Hx'. apply list_elem_of_singleton in Hx'. by subst.
  - split_and!; [done | done | done |]. exists n. by split_and!.
Qed.

Lemma addTag_no_duplicate_witness :
  let n := {| id := "1"; title := "draft"; content := ""; tags := ["notes"%string];
              dateCreated := 1; folderId := None; summary := None |} in
  let st := {| notes := [n]; folders := []; activeNote := Some n;
               activeFolderId := "all"; tagInput := "audio"; viewState := ViewEditor |} in
  let tag := tagInput st in
  let asked := true && negb (String.eqb (tagInput st) "") in
  let tagged := spread n (tags_only (tags n ++ [tag])) in
  let st' := addTag (λ s, s) (λ s, s) true st in
  (asked = false → st' = st)
  ∧ (asked = true → tag ∈ tags n → st' = setTagInput "" st)
  ∧ (asked = true → (tag ∉ tags n) →
       activeNote st' = Some tagged
       ∧ tags tagged = tags n ++ [tag]
       ∧ notes st' = map (λ m, if String.eqb (id m) (id n) then tagged else m) (notes st)
       ∧ tagInput st' = ""%string
       ∧ folders st' = folders st
       ∧ activeFolderId st' = activeFolderId st)
  ∧ ∃ n', activeNote st' = Some n' ∧ id n' = id n ∧ NoDup (tags n').
Proof.
  cbv zeta.
  apply (addTag_no_duplicate (λ s, s) (λ s, s) true
           {| notes := [{| id := "1"; title := "draft"; content := "";
                           tags := ["notes"%string]; dateCreated := 1;
                           folderId := None; summary := None |}];
              folders := [];
              activeNote := Some {| id := "1"; title := "draft"; content := "";
                                    tags := ["notes"%string]; dateCreated := 1;
                                    folderId := None; summary := None |};
              activeFolderId := "all"; tagInput := "audio"; viewState := ViewEditor |}
           {| id := "1"; title := "draft"; content := ""; tags := ["notes"%string];
              dateCreated := 1; folderId := None; summary := None |}).
  - reflexivity.
  - apply NoDup_singleton.
Defined.
End Notes.
